(** * soulstruct: MSB group bit sets, merging and batch transforms

    A shallow embedding of [soulstruct/base/maps/msb/utils.py]:
    the [GroupBitSet] classes, [merge], and the transform functions
    [rotate_entry], [rotate_part_or_region], [rotate_all_in_world],
    [translate_all] and [move_map].

    Python objects that are mutated in place (the [set] held by a
    [GroupBitSet], an [MSBEntryList], an MSB entry) live in an explicit
    store and are referred to by location, so that two references to one
    object are two copies of one location. *)

From Stdlib Require Import ZArith List String Ascii Lia Bool.
From Stdlib Require Import DecimalString DecimalZ DecimalPos DecimalN DecimalFacts.
From stdpp Require Import base tactics option list gmap sets fin_sets strings sorting numbers.

Local Open Scope Z_scope.

(** ** Exceptions and the store monad *)

(** The messages of the exceptions the module raises, by the place
    that raises them. *)
Inductive msg :=
| MsgBitOutOfRange        (* "Bit {bit} is out of range for ..." *)
| MsgSetFlagsTooLarge     (* "All `set` flags passed to this `GroupBitSet` must be less than ..." *)
| MsgCannotInitialize     (* "Cannot initialize ... from ..." *)
| MsgInvalidSource        (* "Invalid string/JSON source for ..." *)
| MsgBitGroupSize         (* size assertion of [int_group_to_bit_set] *)
| MsgFilterNotCallable    (* "`filter_func` must be callable, ..." *)
| MsgDifferentFieldNames  (* "Cannot merge MSBs with different field names" *)
| MsgRepeatedNames        (* "Found repeated names in merged MSBs" *)
| MsgCannotRotate         (* "Cannot rotate MSB entry type" *)
| MsgBadRotation          (* rotation of an unsupported type *)
| MsgAmbiguousName        (* entry name that is not unique *)
| MsgNameNotFound         (* entry name that is absent *)
| MsgCannotCombine.       (* "Cannot combine ... with ..." *)

Inductive exn :=
| ValueError (m : msg)
| TypeError (m : msg)
| KeyError
| AttributeError
| NameError (name : string)
| SyntaxError
| InvalidRef.   (* a location that is not in the store; never a reference
                   handed out by [alloc] *)

Inductive result (A : Type) :=
| Ok (a : A)
| Raise (e : exn).
Arguments Ok {A} a.
Arguments Raise {A} e.

(** A computation over a store [St]: it returns a value or raises, and in
    both cases leaves a store behind (what was mutated before an exception
    stays mutated). *)
Definition M (St A : Type) : Type := St -> result A * St.

Definition ret {St A} (a : A) : M St A := fun h => (Ok a, h).
Definition raise {St A} (e : exn) : M St A := fun h => (Raise e, h).
Definition bind {St A B} (m : M St A) (k : A -> M St B) : M St B :=
  fun h => match m h with
           | (Ok a, h') => k a h'
           | (Raise e, h') => (Raise e, h')
           end.
Definition lift {St A} (r : result A) : M St A := fun h => (r, h).

Notation "x <- m ;; k" := (bind m (fun x => k))
  (at level 100, m at next level, right associativity).
Notation "m ;;; k" := (bind m (fun _ => k))
  (at level 100, right associativity).

(** [for x in l: body(x)]. *)
Fixpoint for_each {St A} (l : list A) (body : A -> M St unit) : M St unit :=
  match l with
  | [] => ret tt
  | x :: l' => body x ;;; for_each l' body
  end.

(** Locations and a store of objects of type [V]. *)
Definition loc := positive.

Section store.
Context {V : Type}.

Definition alloc (v : V) : M (gmap loc V) loc :=
  fun h => let l := fresh (dom h) in (Ok l, <[l := v]> h).

Definition read (l : loc) : M (gmap loc V) V :=
  fun h => match h !! l with
           | Some v => (Ok v, h)
           | None => (Raise InvalidRef, h)
           end.

Definition write (l : loc) (v : V) : M (gmap loc V) unit :=
  fun h => match h !! l with
           | Some _ => (Ok tt, <[l := v]> h)
           | None => (Raise InvalidRef, h)
           end.
End store.

(** ** [soulstruct.utilities.conversion] *)

(** The bits of one 32-bit word [word] at index [i] of the word list:
    global bit [32 * i + j] for each [j] in [range(32)] with
    [(2 ** j) & word] non-zero. *)
Definition word_bits (i : nat) (word : Z) : gset Z :=
  list_to_set
    (omap (fun j => if Z.testbit word j then Some (32 * Z.of_nat i + j) else None)
          (seqZ 0 32)).

(** Modelled from the spec: [int_group_to_bit_set] of
    [soulstruct/utilities/conversion.py], which is not among the sources.
    Bit [j] of the word at index [i] is enabled iff it is set, and maps to
    global bit [32 * i + j]; a word list whose length is not [assert_size]
    fails with a size-mismatch error. *)
Definition int_group_to_bit_set (int_group : list Z) (assert_size : nat)
  : result (gset Z) :=
  if decide (length int_group = assert_size)
  then Ok (⋃ (imap word_bits int_group))
  else Raise (ValueError MsgBitGroupSize).

(** The word at index [i]: bit [j] is set iff global bit [32 * i + j] is
    enabled. *)
Definition word_of (enabled_flags : gset Z) (i : nat) : Z :=
  foldr (fun j acc =>
           if bool_decide (32 * Z.of_nat i + j ∈ enabled_flags)
           then Z.lor acc (Z.shiftl 1 j) else acc)
        0 (seqZ 0 32).

(** Modelled from the spec: [bit_set_to_int_group] of
    [soulstruct/utilities/conversion.py], which is not among the sources.
    The inverse of [int_group_to_bit_set]: always [group_size] words, word
    [i] carrying the enabled bits [32 * i .. 32 * i + 31]. The spec says
    nothing about enabled bits outside [0, 32 * group_size); this model
    leaves them out of the words. *)
Definition bit_set_to_int_group (enabled_flags : gset Z) (group_size : nat)
  : list Z :=
  map (word_of enabled_flags) (seq 0 group_size).

(** ** [GroupBitSet] *)

(** The two concrete subclasses. *)
Inductive width := GroupBitSet128 | GroupBitSet256.

Global Instance width_eq_dec : EqDecision width.
Proof. solve_decision. Defined.

Definition BIT_COUNT (c : width) : Z :=
  match c with GroupBitSet128 => 128 | GroupBitSet256 => 256 end.

Definition class_name (c : width) : string :=
  match c with
  | GroupBitSet128 => "GroupBitSet128"
  | GroupBitSet256 => "GroupBitSet256"
  end.

(** An instance: its class and its only field, a reference to a [set]
    object of the store. *)
Record GroupBitSet := mkGroupBitSet { cls : width; enabled_bits : loc }.

(** The store of [set] objects. Members are Python ints, so the
    [isinstance(i, int)] conjunct of the constructor holds by typing. *)
Abbreviation set_store := (gmap loc (gset Z)).

(** What [__init__] may be given. *)
Inductive init_arg :=
| ArgInstance (g : GroupBitSet)
| ArgList (uint_list : list Z)
| ArgSet (bit_set : loc)
| ArgOther.

Definition sorted (s : gset Z) : list Z := merge_sort Z.le (elements s).

Definition init (c : width) (uint_list_or_bit_set : init_arg)
  : M set_store GroupBitSet :=
  match uint_list_or_bit_set with
  | ArgInstance other =>
      if decide (cls other = c)
      then ret (mkGroupBitSet c (enabled_bits other))
      else raise (TypeError MsgCannotInitialize)
  | ArgList l =>
      bits <- lift (int_group_to_bit_set l (length l)) ;;
      s <- alloc bits ;;
      ret (mkGroupBitSet c s)
  | ArgSet s =>
      bits <- read s ;;
      if forallb (fun i => i <? BIT_COUNT c) (elements bits)
      then ret (mkGroupBitSet c s)
      else raise (TypeError MsgSetFlagsTooLarge)
  | ArgOther => raise (TypeError MsgCannotInitialize)
  end.

Definition to_sorted_bit_list (g : GroupBitSet) : M set_store (list Z) :=
  bits <- read (enabled_bits g) ;; ret (sorted bits).

Definition to_uints (g : GroupBitSet) : M set_store (list Z) :=
  bits <- read (enabled_bits g) ;;
  ret (bit_set_to_int_group bits (Z.to_nat (BIT_COUNT (cls g) / 32))).

Definition add (g : GroupBitSet) (bit : Z) : M set_store unit :=
  if negb ((0 <=? bit) && (bit <=? BIT_COUNT (cls g)))
  then raise (ValueError MsgBitOutOfRange)
  else bits <- read (enabled_bits g) ;;
       write (enabled_bits g) ({[bit]} ∪ bits).

Definition remove (g : GroupBitSet) (bit : Z) : M set_store unit :=
  if negb ((0 <=? bit) && (bit <=? BIT_COUNT (cls g)))
  then raise (ValueError MsgBitOutOfRange)
  else bits <- read (enabled_bits g) ;;
       if decide (bit ∈ bits)
       then write (enabled_bits g) (bits ∖ {[bit]})
       else raise KeyError.

(** What [__or__] may be given. *)
Inductive or_arg :=
| OrInstance (g : GroupBitSet)
| OrSet (bit_set : loc)
| OrOther.

(** [self | other]: the union is a new [set] object, handed to the
    constructor of the class of [self]. *)
Definition or_ (self : GroupBitSet) (other : or_arg) : M set_store GroupBitSet :=
  let c := cls self in
  match other with
  | OrInstance o =>
      if decide (cls o = c)
      then mine <- read (enabled_bits self) ;;
           theirs <- read (enabled_bits o) ;;
           s <- alloc (mine ∪ theirs) ;;
           init c (ArgSet s)
      else raise (TypeError MsgCannotCombine)
  | OrSet o =>
      mine <- read (enabled_bits self) ;;
      theirs <- read o ;;
      s <- alloc (mine ∪ theirs) ;;
      init c (ArgSet s)
  | OrOther => raise (TypeError MsgCannotCombine)
  end.

(** *** The textual form *)

(** A Python [str] is the sequence of its code points; an int is
    unbounded, and is converted to and from its decimal text whatever its
    length (as when [sys.set_int_max_str_digits] is at 0). *)
Definition pystr := list Z.

(** [ord(c)] of an ASCII character, and the [str] that a literal of
    ASCII characters denotes. *)
Definition ord (c : ascii) : Z := Z.of_N (N_of_ascii c).

Definition py (s : string) : pystr := map ord (list_ascii_of_string s).

(** [str(i)] of a Python int. *)
Definition str (i : Z) : pystr := py (NilZero.string_of_int (Z.to_int i)).

(** [sep.join(l)]. *)
Fixpoint join (sep : pystr) (l : list pystr) : pystr :=
  match l with
  | [] => []
  | [x] => x
  | x :: l' => x ++ sep ++ join sep l'
  end.

Definition repr (g : GroupBitSet) : M set_store pystr :=
  bits <- read (enabled_bits g) ;;
  let bit_tuple := py "(" ++ join (py ", ") (map str (sorted bits)) ++ py ")" in
  ret (py (class_name (cls g)) ++ bit_tuple).

(** The canonical text of a class and a set of bits: what [repr] returns
    for an instance of the class that holds the set. *)
Definition canonical_text (c : width) (bits : gset Z) : pystr :=
  py (class_name c) ++ py "(" ++ join (py ", ") (map str (sorted bits)) ++ py ")".

(** A string is canonical for a class when it is the [repr] of some set
    of valid bit indices. *)
Definition canonical (c : width) (s : pystr) : Prop :=
  exists bits : gset Z,
    (forall b, b ∈ bits -> 0 <= b < BIT_COUNT c) /\ s = canonical_text c bits.

(** The digits [0-9]. *)
Definition is_digit (c : Z) : bool := (ord "0" <=? c) && (c <=? ord "9").

Fixpoint strip_prefix (p s : pystr) : option pystr :=
  match p, s with
  | [], _ => Some s
  | a :: p', b :: s' => if a =? b then strip_prefix p' s' else None
  | _ :: _, [] => None
  end.

Definition newline : Z := 10.

Section pattern.
(** The decimal digits of Unicode above ASCII (the code points of
    category [Nd] other than [0-9]), as the [re] module of the running
    interpreter has them. *)
Variable unicode_decimal : Z -> bool.

(** [\d] in a [str] pattern: any decimal digit of Unicode. *)
Definition decimal_digit (c : Z) : bool :=
  is_digit c || ((127 <? c) && unicode_decimal c).

(** The character class [[\d, ]] of [_REPR_RE]. *)
Definition in_tuple_class (c : Z) : bool :=
  decimal_digit c || (c =? ord ",") || (c =? ord " ").

(** The longest prefix within the character class, and what follows it. *)
Fixpoint span_tuple_class (s : pystr) : pystr * pystr :=
  match s with
  | [] => ([], [])
  | c :: s' =>
      if in_tuple_class c
      then let (body, rest) := span_tuple_class s' in (c :: body, rest)
      else ([], s)
  end.

(** [cls._REPR_RE.match(repr_string)] with
    [_REPR_RE = ^<class name>(\([\d, ]*\))$]: [None], or [match.group(1)],
    the parenthesised part. [$] also matches just before a newline that
    ends the string. *)
Definition REPR_RE_match (c : width) (repr_string : pystr) : option pystr :=
  match strip_prefix (py (class_name c)) repr_string with
  | Some (a :: rest) =>
      if a =? ord "(" then
        let (body, rest') := span_tuple_class rest in
        match rest' with
        | [b] =>
            if b =? ord ")" then Some (py "(" ++ body ++ py ")") else None
        | [b; nl] =>
            if (b =? ord ")") && (nl =? newline)
            then Some (py "(" ++ body ++ py ")") else None
        | _ => None
        end
      else None
  | _ => None
  end.
End pattern.

(** [ast.literal_eval] on what the pattern lets through: a parenthesised
    string of decimal digits, commas and spaces. *)
Inductive token := TNum (digits : pystr) | TComma.

Definition flush (cur : pystr) (ts : list token) : list token :=
  match cur with [] => ts | _ => TNum cur :: ts end.

Definition map_result {A B} (f : A -> B) (r : result A) : result B :=
  match r with Ok a => Ok (f a) | Raise e => Raise e end.

(** [cur] holds the digits of the number being read. Of the decimal
    digits only [0-9] are digits of the language: any other is an invalid
    character. *)
Fixpoint tokenize (cur : pystr) (s : pystr) : result (list token) :=
  match s with
  | [] => Ok (flush cur [])
  | c :: s' =>
      if is_digit c then tokenize (cur ++ [c]) s'
      else if c =? ord " " then map_result (flush cur) (tokenize [] s')
      else if c =? ord ","
           then map_result (fun ts => flush cur (TComma :: ts)) (tokenize [] s')
      else Raise SyntaxError
  end.

Definition all_zeros (d : pystr) : bool := forallb (Z.eqb (ord "0")) d.

(** The int that a string of digits denotes. *)
Definition decimal_value (d : pystr) : Z :=
  foldl (fun acc c => 10 * acc + (c - ord "0")) 0 d.

(** A decimal integer literal: no leading zero unless all digits are
    zero. *)
Definition decimal_literal (d : pystr) : result Z :=
  match d with
  | [] => Raise SyntaxError
  | c :: _ =>
      if (c =? ord "0") && negb (all_zeros d)
      then Raise SyntaxError
      else Ok (decimal_value d)
  end.

Definition bind_result {A B} (r : result A) (k : A -> result B) : result B :=
  match r with Ok a => k a | Raise e => Raise e end.

(** The elements of a tuple display: numbers separated by commas, with an
    optional trailing comma. *)
Fixpoint tuple_items (ts : list token) : result (list Z) :=
  match ts with
  | [] => Ok []
  | TNum d :: ts' =>
      bind_result (decimal_literal d) (fun v =>
        match ts' with
        | [] => Ok [v]
        | TComma :: ts'' => map_result (cons v) (tuple_items ts'')
        | TNum _ :: _ => Raise SyntaxError
        end)
  | TComma :: _ => Raise SyntaxError
  end.

Inductive literal := LitInt (i : Z) | LitTuple (t : list Z).

Definition parenthesised (ts : list token) : result literal :=
  match ts with
  | [TNum d] => map_result LitInt (decimal_literal d)
  | _ => map_result LitTuple (tuple_items ts)
  end.

(** What is between the opening and the closing parenthesis. *)
Definition strip_parentheses (s : pystr) : option pystr :=
  match s with
  | a :: s' =>
      match list.last s' with
      | Some b =>
          if (a =? ord "(") && (b =? ord ")") then Some (removelast s') else None
      | None => None
      end
  | [] => None
  end.

Definition literal_eval (s : pystr) : result literal :=
  match strip_parentheses s with
  | Some body => bind_result (tokenize [] body) parenthesised
  | None => Raise SyntaxError
  end.

(** [(bit_tuple,)] for an int, the tuple itself otherwise. *)
Definition as_tuple (lit : literal) : list Z :=
  match lit with LitInt i => [i] | LitTuple t => t end.

Definition from_repr (unicode_decimal : Z -> bool) (c : width) (repr_string : pystr)
  : M set_store GroupBitSet :=
  match REPR_RE_match unicode_decimal c repr_string with
  | None => raise (ValueError MsgInvalidSource)
  | Some group1 =>
      bit_tuple <- lift (literal_eval group1) ;;
      let bit_tuple := as_tuple bit_tuple in
      s <- alloc (list_to_set bit_tuple) ;;
      init c (ArgSet s)
  end.

(** The texts that [from_repr] reads, written out. A decimal literal [d]
    of value [v]: digits, the first of them not a zero unless all are. *)
Definition decimal_integer (d : pystr) (v : Z) : Prop :=
  d <> []
  /\ Forall (fun c => ord "0" <= c <= ord "9") d
  /\ (head d = Some (ord "0") -> Forall (eq (ord "0")) d)
  /\ v = decimal_value d.

Definition spaces (w : pystr) : Prop := Forall (eq (ord " ")) w.

(** The text of a tuple of ints, without its parentheses: nothing, or
    decimal literals with a comma after each but, at will, the last;
    spaces anywhere between literals and commas. *)
Inductive items : pystr -> list Z -> Prop :=
| items_none w :
    spaces w -> items w []
| items_last w1 d v w2 :
    spaces w1 -> decimal_integer d v -> spaces w2 ->
    items (w1 ++ d ++ w2) [v]
| items_more w1 d v w2 rest l :
    spaces w1 -> decimal_integer d v -> spaces w2 -> items rest l ->
    items (w1 ++ d ++ w2 ++ py "," ++ rest) (v :: l).

(** [s] is the class name, then [body] in parentheses, then the end of
    the string or one newline. *)
Definition tuple_text (c : width) (body s : pystr) : Prop :=
  exists nl, s = py (class_name c) ++ py "(" ++ body ++ py ")" ++ nl
             /\ (nl = [] \/ nl = [newline]).

(** ** [merge] *)

Module Merge.
Section merge.
(** [MSBEntry] is not among the sources; [merge] looks at the names of
    the entries only, and hands the entries to [filter_func]. *)
Context {MSBEntry : Type} (entry_name : MSBEntry -> string).

(** The store of [MSBEntryList] objects. *)
Abbreviation list_store := (gmap loc (list MSBEntry)).

(** An MSB, as [merge] uses it: a dataclass whose fields, in order,
    refer to the entry lists of the subtypes. *)
Record MSB := mkMSB { msb_fields : list (string * loc) }.

Definition fields (msb : MSB) : list string := map fst (msb_fields msb).

Definition assoc (name : string) (l : list (string * loc)) : option loc :=
  snd <$> List.find (fun p => String.eqb (fst p) name) l.

Definition getattr (msb : MSB) (name : string) : M list_store loc :=
  match assoc name (msb_fields msb) with
  | Some l => ret l
  | None => raise AttributeError
  end.

Inductive filter_arg :=
| FilterNone
| FilterFunc (f : MSBEntry -> bool)
| FilterNotCallable.

Definition filtered (filter_func : filter_arg) (entries : list MSBEntry)
  : list MSBEntry :=
  match filter_func with
  | FilterFunc f => List.filter f entries
  | _ => entries
  end.

(** Modelled from the spec: [MSBEntryList.get_filtered_list], which is
    not among the sources. A new list of (copies of) the entries the
    predicate accepts, all entries without a predicate; the source list
    is not mutated. *)
Definition get_filtered_list (l : loc) (filter_func : filter_arg)
  : M list_store loc :=
  entries <- read l ;;
  alloc (filtered filter_func entries).

(** Modelled from the spec: [MSBEntryList.get_entry_names], which is not
    among the sources. The names, in list order. *)
Definition get_entry_names (l : loc) : M list_store (list string) :=
  entries <- read l ;; ret (map entry_name entries).

(** [list.extend], in place. *)
Definition extend (l other : loc) : M list_store unit :=
  more <- read other ;;
  entries <- read l ;;
  write l (entries ++ more).

(** [set(a).intersection(b)], up to the order of its elements. *)
Definition intersection (a b : list string) : list string :=
  List.filter (fun n => bool_decide (n ∈ b)) a.

(** The names that the filtered lists of subtype [n] share, in the
    store [h]. *)
Definition repeated_names_of (msb_1 msb_2 : MSB) (filter_func : filter_arg)
    (h : list_store) (n : string) : list string :=
  match assoc n (msb_fields msb_1), assoc n (msb_fields msb_2) with
  | Some l1, Some l2 =>
      match h !! l1, h !! l2 with
      | Some es1, Some es2 =>
          intersection (map entry_name (filtered filter_func es1))
                       (map entry_name (filtered filter_func es2))
      | _, _ => []
      end
  | _, _ => []
  end.

(** Both MSBs have a field [n] that refers to a list of the store. *)
Definition ready (msb_1 msb_2 : MSB) (h : list_store) (n : string) : Prop :=
  exists l1 l2 es1 es2,
    assoc n (msb_fields msb_1) = Some l1 /\ assoc n (msb_fields msb_2) = Some l2
    /\ h !! l1 = Some es1 /\ h !! l2 = Some es2.

(** Every field of the MSB refers to a list of the store. *)
Definition well_formed (msb : MSB) (h : list_store) : Prop :=
  forall n l, (n, l) ∈ msb_fields msb -> is_Some (h !! l).

(** The body of the loop over the subtype names; [merged_entry_lists]
    is the dict built so far. The warning that is logged when repeated
    names are allowed is not modelled. *)
Fixpoint merge_loop (msb_1 msb_2 : MSB) (filter_func : filter_arg)
    (allow_repeated_names : bool) (subtype_names : list string)
    (merged_entry_lists : gmap string loc) : M list_store (gmap string loc) :=
  match subtype_names with
  | [] => ret merged_entry_lists
  | subtype_name :: rest =>
      msb_1_entries <- getattr msb_1 subtype_name ;;
      msb_1_entries <- get_filtered_list msb_1_entries filter_func ;;
      msb_2_entries <- getattr msb_2 subtype_name ;;
      msb_2_entries <- get_filtered_list msb_2_entries filter_func ;;
      names_1 <- get_entry_names msb_1_entries ;;
      names_2 <- get_entry_names msb_2_entries ;;
      let repeated_names := intersection names_1 names_2 in
      (match repeated_names with
       | [] => ret tt
       | _ :: _ =>
           if allow_repeated_names then ret tt
           else raise (ValueError MsgRepeatedNames)
       end) ;;;
      let merged_entry_lists := <[subtype_name := msb_1_entries]> merged_entry_lists in
      extend msb_1_entries msb_2_entries ;;;
      merge_loop msb_1 msb_2 filter_func allow_repeated_names rest merged_entry_lists
  end.

(** The call of [msb_1.__class__] with [merged_entry_lists] as its
    keyword arguments: each field of the class from the argument of its
    name. *)
Fixpoint construct (field_names : list string) (kwargs : gmap string loc)
  : result (list (string * loc)) :=
  match field_names with
  | [] => Ok []
  | n :: rest =>
      match kwargs !! n with
      | Some l => map_result (cons (n, l)) (construct rest kwargs)
      | None => Raise (TypeError MsgCannotInitialize)
      end
  end.

Definition merge (msb_1 msb_2 : MSB) (filter_func : filter_arg)
    (allow_repeated_names : bool) : M list_store MSB :=
  match filter_func with
  | FilterNotCallable => raise (ValueError MsgFilterNotCallable)
  | _ =>
      let msb_1_field_names := fields msb_1 in
      let msb_2_field_names := fields msb_2 in
      if decide (msb_1_field_names <> msb_2_field_names)
      then raise (TypeError MsgDifferentFieldNames)
      else
        merged_entry_lists <-
          merge_loop msb_1 msb_2 filter_func allow_repeated_names
                     msb_1_field_names ∅ ;;
        fs <- lift (construct msb_1_field_names merged_entry_lists) ;;
        ret (mkMSB fs)
  end.
End merge.
End Merge.

(** ** The batch transforms *)

Module Transform.

(** The classes [isinstance] tells apart. *)
Inductive entry_class := BaseMSBPart | BaseMSBRegion | OtherEntry.

Global Instance entry_class_eq_dec : EqDecision entry_class.
Proof. solve_decision. Defined.

(** The class names bound in a module's namespace. *)
Definition globals := list (string * entry_class).

(** The namespace of [utils.py] when it runs: [BaseMSBPart] and
    [BaseMSBRegion] (with [MSB], [MSBEntry], ...) are imported under
    [if tp.TYPE_CHECKING:] only, lines 23 to 29, so neither is bound. *)
Definition module_globals : globals := [].

(** The namespace a type checker sees. *)
Definition type_checking_globals : globals :=
  [("BaseMSBPart", BaseMSBPart); ("BaseMSBRegion", BaseMSBRegion)]%string.

Definition lookup_name (G : globals) (n : string) : result entry_class :=
  match List.find (fun p => String.eqb (fst p) n) G with
  | Some (_, c) => Ok c
  | None => Raise (NameError n)
  end.

(** A namespace in which the two class names stand for the two classes. *)
Definition names_bound (G : globals) : Prop :=
  lookup_name G "BaseMSBPart" = Ok BaseMSBPart
  /\ lookup_name G "BaseMSBRegion" = Ok BaseMSBRegion.

(** [soulstruct.utilities.maths] is not among the sources: floats,
    [Vector3], [Matrix3] and the operations the transforms use are two
    interfaces, one for vectors and one for rotations. *)
Class Vectors (F Vector3 : Type) := {
  fadd : F -> F -> F;                              (* float [+] *)
  vadd : Vector3 -> Vector3 -> Vector3;            (* [Vector3] [+] *)
  vsub : Vector3 -> Vector3 -> Vector3;            (* [Vector3] [-] *)
  vzero : Vector3;                                 (* [Vector3.zero()] *)
  vy : Vector3 -> F                                (* [.y] *)
}.

Class Rotations (F Vector3 Matrix3 : Type) := {
  yaw_only : F -> Vector3;                         (* [(0, y, 0)] *)
  from_euler_angles : Vector3 -> bool -> Matrix3;  (* second argument: [radians] *)
  to_euler_angles : Matrix3 -> Vector3;
  matmul : Matrix3 -> Matrix3 -> Matrix3;          (* [Matrix3 @ Matrix3] *)
  matvec : Matrix3 -> Vector3 -> Vector3;          (* [Matrix3 @ Vector3] *)
  transpose : Matrix3 -> Matrix3                   (* [.T] *)
}.

(** Vectors of integers, where [+] is exact. *)
Definition Z3 : Type := Z * Z * Z.

Global Instance integer_vectors : Vectors Z Z3 := {
  fadd := Z.add;
  vadd := fun '(x1, y1, z1) '(x2, y2, z2) => (x1 + x2, y1 + y2, z1 + z2);
  vsub := fun '(x1, y1, z1) '(x2, y2, z2) => (x1 - x2, y1 - y2, z1 - z2);
  vzero := (0, 0, 0);
  vy := fun '(_, y, _) => y
}.

Section transform.
Context {F Vector3 Matrix3 : Type}.
Context {vectors : Vectors F Vector3} {rotations : Rotations F Vector3 Matrix3}.

(** A Part, a Region or another entry; [reflect_plane_height] is
    [Some] when the object has the attribute. [translate] and [rotate]
    are attributes of the Parts and the Regions: on another entry the two
    fields stand for no attribute, and are not to be read. *)
Record MSBEntry := mkEntry {
  class : entry_class;
  name : string;
  translate : Vector3;
  rotate : Vector3;
  reflect_plane_height : option F
}.

Definition set_translate (e : MSBEntry) (v : Vector3) : MSBEntry :=
  mkEntry (class e) (name e) v (rotate e) (reflect_plane_height e).
Definition set_rotate (e : MSBEntry) (v : Vector3) : MSBEntry :=
  mkEntry (class e) (name e) (translate e) v (reflect_plane_height e).
Definition set_reflect_plane_height (e : MSBEntry) (h : F) : MSBEntry :=
  mkEntry (class e) (name e) (translate e) (rotate e) (Some h).

(** The store of entry objects. *)
Abbreviation entry_store := (gmap loc MSBEntry).

(** An MSB, as the transforms use it ([MSB] is not among the sources):
    what [get_parts()] and [get_regions()] return. *)
Record MSB := mkMSB { get_parts : list loc; get_regions : list loc }.

(** An element of [selected_entries]: an entry or a name. *)
Inductive selector := SelEntry (e : loc) | SelName (n : string).

Definition named (h : entry_store) (n : string) (l : loc) : bool :=
  match h !! l with
  | Some e => String.eqb (name e) n
  | None => false
  end.

Definition resolve_entry (msb : MSB) (h : entry_store) (s : selector)
  : result loc :=
  match s with
  | SelEntry e => Ok e
  | SelName n =>
      match List.filter (named h n) (get_parts msb ++ get_regions msb) with
      | [] => Raise KeyError
      | [e] => Ok e
      | _ => Raise (ValueError MsgAmbiguousName)
      end
  end.

Fixpoint resolve_all (msb : MSB) (h : entry_store) (ss : list selector)
  : result (list loc) :=
  match ss with
  | [] => Ok []
  | s :: ss' =>
      bind_result (resolve_entry msb h s) (fun e =>
        map_result (cons e) (resolve_all msb h ss'))
  end.

(** Modelled from the spec: [MSB.resolve_entries_list] with the
    supertypes [("parts", "regions")], which is not among the sources.
    An entry passes through unchanged; a name is looked up among the
    Parts and Regions, and fails when it is absent or not unique. *)
Definition resolve_entries_list (msb : MSB) (selected_entries : list selector)
  : M entry_store (list loc) :=
  fun h => (resolve_all msb h selected_entries, h).

(** Modelled from the spec: [resolve_rotation] of
    [soulstruct/utilities/maths.py], which is not among the sources. A
    rotation matrix is taken as it is, an Euler triple is converted, a
    single number is a rotation about the vertical axis only; degrees
    unless [radians]. *)
Inductive rotation_arg :=
| RotMatrix (m : Matrix3)
| RotEuler (v : Vector3)
| RotScalar (y : F)
| RotOther.

Definition resolve_rotation (rotation : rotation_arg) (radians : bool)
  : result Matrix3 :=
  match rotation with
  | RotMatrix m => Ok m
  | RotEuler v => Ok (from_euler_angles v radians)
  | RotScalar y => Ok (from_euler_angles (yaw_only y) radians)
  | RotOther => Raise (TypeError MsgBadRotation)
  end.

Definition isinstance (e : MSBEntry) (classes : list entry_class) : bool :=
  bool_decide (class e ∈ classes).

(** The rotation law shared by [rotate_entry] and
    [rotate_part_or_region]. *)
Definition rotated (e : MSBEntry) (rotation : Matrix3) (pivot_point : Vector3)
  : MSBEntry :=
  let e' := set_rotate e (to_euler_angles
              (matmul rotation (from_euler_angles (rotate e) false))) in
  set_translate e' (vadd (matvec rotation (vsub (translate e') pivot_point))
                         pivot_point).

Definition rotate_part_or_region (G : globals) (entry : loc)
    (rotation : rotation_arg) (pivot_point : option Vector3) (radians : bool)
  : M entry_store unit :=
  e <- read entry ;;
  part_class <- lift (lookup_name G "BaseMSBPart") ;;
  region_class <- lift (lookup_name G "BaseMSBRegion") ;;
  if negb (isinstance e [part_class; region_class])
  then raise (TypeError MsgCannotRotate)
  else
    rotation <- lift (resolve_rotation rotation radians) ;;
    let pivot_point := default vzero pivot_point in
    write entry (rotated e rotation pivot_point).

(** [rotate_entry]: the same law without the class test; the pivot
    defaults to the world origin. The first attribute read is
    [entry.rotate], which an entry that is neither a Part nor a Region
    does not have. *)
Definition rotate_entry (entry : loc) (rotation : rotation_arg)
    (pivot_point : option Vector3) (radians : bool) : M entry_store unit :=
  rotation <- lift (resolve_rotation rotation radians) ;;
  let pivot_point := default vzero pivot_point in
  e <- read entry ;;
  if bool_decide (class e = OtherEntry)
  then raise AttributeError
  else write entry (rotated e rotation pivot_point).

(** [not selected_entries or entry in selected_entries]. *)
Definition is_selected (selected_entries : list loc) (entry : loc) : bool :=
  match selected_entries with
  | [] => true
  | _ => bool_decide (entry ∈ selected_entries)
  end.

Definition rotate_all_in_world (G : globals) (msb : MSB)
    (rotation : rotation_arg) (pivot_point : option Vector3) (radians : bool)
    (selected_entries : list selector) : M entry_store unit :=
  selected_entries <- resolve_entries_list msb selected_entries ;;
  rotation_m <- lift (resolve_rotation rotation false) ;;
  let pivot_point := default vzero pivot_point in
  for_each (get_parts msb) (fun part =>
    if is_selected selected_entries part
    then rotate_part_or_region G part (RotMatrix rotation_m) (Some pivot_point) radians
    else ret tt) ;;;
  for_each (get_regions msb) (fun region =>
    if is_selected selected_entries region
    then rotate_part_or_region G region (RotMatrix rotation_m) (Some pivot_point) radians
    else ret tt).

Definition translate_part (translate_by : Vector3) (part : loc)
  : M entry_store unit :=
  e <- read part ;;
  write part (set_translate e (vadd (translate e) translate_by)) ;;;
  e <- read part ;;
  match reflect_plane_height e with
  | Some h => write part (set_reflect_plane_height e (fadd h (vy translate_by)))
  | None => ret tt
  end.

Definition translate_region (translate_by : Vector3) (region : loc)
  : M entry_store unit :=
  e <- read region ;;
  write region (set_translate e (vadd (translate e) translate_by)).

(** What [translate_all] makes of a Part and of a Region it moves. *)
Definition translated_part (translate_by : Vector3) (e : MSBEntry) : MSBEntry :=
  let e' := set_translate e (vadd (translate e) translate_by) in
  match reflect_plane_height e' with
  | Some h => set_reflect_plane_height e' (fadd h (vy translate_by))
  | None => e'
  end.

Definition translated_region (translate_by : Vector3) (e : MSBEntry) : MSBEntry :=
  set_translate e (vadd (translate e) translate_by).

(** Where an entry of the store ends up after a loop over the Parts
    and a loop over the Regions that replace the selected ones. *)
Definition both_loops_lookup (msb : MSB) (selected : list loc)
    (on_part on_region : MSBEntry -> MSBEntry) (h : entry_store) (l : loc)
  : option MSBEntry :=
  if bool_decide (l ∈ get_parts msb) && is_selected selected l
  then on_part <$> (h !! l)
  else if bool_decide (l ∈ get_regions msb) && is_selected selected l
       then on_region <$> (h !! l)
       else h !! l.

Definition translate_all (msb : MSB) (translate_by : Vector3)
    (selected_entries : list selector) : M entry_store unit :=
  selected_entries <- resolve_entries_list msb selected_entries ;;
  for_each (get_parts msb) (fun part =>
    if is_selected selected_entries part
    then translate_part translate_by part else ret tt) ;;;
  for_each (get_regions msb) (fun region =>
    if is_selected selected_entries region
    then translate_region translate_by region else ret tt).

Definition move_map (G : globals) (msb : MSB)
    (start_translate end_translate start_rotate end_rotate : option Vector3)
    (selected_entries : list selector) : M entry_store unit :=
  selected_entries <- resolve_entries_list msb selected_entries ;;
  let start_translate := default vzero start_translate in
  let end_translate := default vzero end_translate in
  let start_rotate := default vzero start_rotate in
  let end_rotate := default vzero end_rotate in
  let m_start_rotate := from_euler_angles start_rotate false in
  let m_end_rotate := from_euler_angles end_rotate false in
  let m_world_rotation := matmul m_end_rotate (transpose m_start_rotate) in
  let translation := vsub end_translate (matvec m_world_rotation start_translate) in
  rotate_all_in_world G msb (RotMatrix m_world_rotation) None false
                      (map SelEntry selected_entries) ;;;
  translate_all msb translation (map SelEntry selected_entries).
End transform.
End Transform.

(** ** Example data *)

Module TextExamples.
(** Three of the blocks of decimal digits above ASCII: the Arabic-Indic,
    the Devanagari and the fullwidth digits. *)
Definition unicode_decimal (c : Z) : bool :=
  ((0x660 <=? c) && (c <=? 0x669))
  || ((0x966 <=? c) && (c <=? 0x96F))
  || ((0xFF10 <=? c) && (c <=? 0xFF19)).
End TextExamples.

Module MergeExamples.
Import Merge.

(** Entries as name and id; two MSBs with one subtype list each. *)
Definition lists : gmap loc (list (string * nat)) :=
  <[1%positive := [("h0000", 0%nat); ("h0001", 1%nat)]]>
    (<[2%positive := [("h0002", 2%nat)]]>
       (<[3%positive := [("h0001", 3%nat)]]> ∅)).
Definition msb_a : MSB := mkMSB [("collisions", 1%positive)].
Definition msb_b : MSB := mkMSB [("collisions", 2%positive)].
Definition msb_c : MSB := mkMSB [("collisions", 3%positive)].
End MergeExamples.

Module TransformExamples.
Import Transform.

(** A map of two Parts, the first with a [reflect_plane_height], and
    one Region, over integer vectors. *)
Definition water : @MSBEntry Z Z3 :=
  mkEntry BaseMSBPart "h0000" (0, 0, 0) (0, 90, 0) (Some 5).
Definition rock : @MSBEntry Z Z3 :=
  mkEntry BaseMSBPart "o1000" (10, 0, 0) (0, 0, 0) None.
Definition spawn : @MSBEntry Z Z3 :=
  mkEntry BaseMSBRegion "spawn" (1, 2, 3) (0, 0, 0) None.
Definition entries : gmap loc (@MSBEntry Z Z3) :=
  <[1%positive := water]> (<[2%positive := rock]> (<[3%positive := spawn]> ∅)).
Definition msb : MSB := mkMSB [1%positive; 2%positive] [3%positive].
End TransformExamples.

Module RotationExamples.
Import Transform.

(** A degenerate instance of the rotations, for integer vectors: one
    matrix, which stands for the identity. *)
Global Instance identity_rotations : Rotations Z Z3 unit := {
  yaw_only := fun y => (0, y, 0);
  from_euler_angles := fun _ _ => tt;
  to_euler_angles := fun _ => (0, 0, 0);
  matmul := fun _ _ => tt;
  matvec := fun _ v => v;
  transpose := fun _ => tt
}.

(** An entry that is neither a Part nor a Region. *)
Definition event : @MSBEntry Z Z3 :=
  mkEntry OtherEntry "event" (0, 0, 0) (0, 0, 0) None.
End RotationExamples.

(** * Properties *)

(** ** The store monad *)

Section store_facts.
Context {V : Type}.
Implicit Types (h : gmap loc V) (l : loc) (v : V).

Lemma alloc_fresh h : h !! fresh (dom h) = None.
Proof. apply not_elem_of_dom, is_fresh. Qed.

Lemma read_Some h l v : h !! l = Some v -> read l h = (Ok v, h).
Proof. unfold read. by intros ->. Qed.

Lemma write_Some h l v v' :
  h !! l = Some v' -> write l v h = (Ok tt, <[l := v]> h).
Proof. unfold write. by intros ->. Qed.

Lemma read_alloc h v :
  read (fresh (dom h)) (<[fresh (dom h) := v]> h)
  = (Ok v, <[fresh (dom h) := v]> h).
Proof. apply read_Some, lookup_insert_eq. Qed.
End store_facts.

Lemma bind_Ok {St A B} (m : M St A) (k : A -> M St B) h a h' :
  m h = (Ok a, h') -> bind m k h = k a h'.
Proof. unfold bind. by intros ->. Qed.

Lemma bind_Raise {St A B} (m : M St A) (k : A -> M St B) h e h' :
  m h = (Raise e, h') -> bind m k h = (Raise e, h').
Proof. unfold bind. by intros ->. Qed.

(** ** Words and bit sets *)

Lemma testbit_fold_words (S : gset Z) (i : nat) (js : list Z) (k : Z) :
  0 <= k -> Forall (fun j => 0 <= j) js ->
  Z.testbit
    (foldr (fun j acc =>
              if bool_decide (32 * Z.of_nat i + j ∈ S)
              then Z.lor acc (Z.shiftl 1 j) else acc) 0 js) k
  = bool_decide (k ∈ js ∧ 32 * Z.of_nat i + k ∈ S).
Proof.
  intros Hk. induction 1 as [|j js Hj _ IH]; cbn [foldr].
  - by rewrite Z.bits_0.
  - destruct (bool_decide (32 * Z.of_nat i + j ∈ S)) eqn:Hin.
    + apply bool_decide_eq_true in Hin.
      rewrite Z.lor_spec, IH, Z.shiftl_1_l, Z.pow2_bits_eqb by lia.
      destruct (Z.eqb_spec j k) as [->|Hne].
      * rewrite orb_true_r. symmetry. apply bool_decide_eq_true_2.
        split; [left|done].
      * rewrite orb_false_r. apply bool_decide_ext.
        rewrite elem_of_cons. intuition congruence.
    + apply bool_decide_eq_false in Hin.
      rewrite IH. apply bool_decide_ext.
      rewrite elem_of_cons. intuition congruence.
Qed.

Lemma testbit_word_of (S : gset Z) (i : nat) (k : Z) :
  0 <= k ->
  Z.testbit (word_of S i) k = bool_decide (k < 32 ∧ 32 * Z.of_nat i + k ∈ S).
Proof.
  intros Hk. unfold word_of. rewrite testbit_fold_words; [|done|].
  - apply bool_decide_ext. rewrite elem_of_seqZ. intuition lia.
  - apply list.Forall_forall. intros j Hj%elem_of_seqZ. lia.
Qed.

Lemma elem_of_word_bits (i : nat) (w x : Z) :
  x ∈ word_bits i w <->
  exists j, 0 <= j < 32 ∧ Z.testbit w j = true ∧ x = 32 * Z.of_nat i + j.
Proof.
  unfold word_bits. rewrite elem_of_list_to_set, list_elem_of_omap.
  split.
  - intros (j & Hj%elem_of_seqZ & Hx). destruct (Z.testbit w j) eqn:Hb; [|done].
    exists j. simplify_eq. split; [lia|done].
  - intros (j & Hj & Hb & ->). exists j. rewrite elem_of_seqZ, Hb.
    split; [lia|done].
Qed.

(** Decoding the words of a set whose members are all in range gives
    the set back. *)
Lemma decode_encode (S : gset Z) (n : nat) :
  (forall b, b ∈ S -> 0 <= b < 32 * Z.of_nat n) ->
  ⋃ (imap word_bits (bit_set_to_int_group S n)) = S.
Proof.
  intros Hrange. apply set_eq. intros x.
  rewrite elem_of_union_list. split.
  - intros (X & HX & Hx).
    apply elem_of_lookup_imap in HX as (i & w & -> & Hw).
    apply elem_of_word_bits in Hx as (j & Hj & Hb & ->).
    unfold bit_set_to_int_group in Hw.
    apply list_lookup_fmap_Some in Hw as (i' & -> & Hi').
    apply lookup_seq in Hi' as [-> _]. simpl in Hb.
    rewrite testbit_word_of in Hb by lia.
    apply bool_decide_eq_true in Hb. tauto.
  - intros Hx. pose proof (Hrange x Hx) as Hr.
    set (i := Z.to_nat (x / 32)).
    assert (Hi : Z.of_nat i = x / 32).
    { unfold i. rewrite Z2Nat.id; [done|]. apply Z.div_pos; lia. }
    assert (Hxeq : x = 32 * Z.of_nat i + x mod 32)
      by (rewrite Hi; apply Z.div_mod; lia).
    exists (word_bits i (word_of S i)). split.
    + apply (elem_of_lookup_imap_2 word_bits _ (word_of S i) i).
      unfold bit_set_to_int_group.
      apply list_lookup_fmap_Some. exists i. split; [done|].
      apply lookup_seq. split; [done|].
      apply Nat2Z.inj_lt. rewrite Hi.
      apply Z.div_lt_upper_bound; lia.
    + apply elem_of_word_bits. exists (x mod 32).
      pose proof (Z.mod_pos_bound x 32 ltac:(lia)).
      split; [lia|]. split; [|exact Hxeq].
      rewrite testbit_word_of by lia. apply bool_decide_eq_true.
      split; [lia|]. by rewrite <- Hxeq.
Qed.

Lemma bit_set_to_int_group_length (S : gset Z) (n : nat) :
  length (bit_set_to_int_group S n) = n.
Proof. unfold bit_set_to_int_group. by rewrite length_map, length_seq. Qed.

(** ** [GroupBitSet] *)

Lemma init_from_set (c : width) (s : loc) (h : set_store) (bits : gset Z) :
  h !! s = Some bits ->
  (forall b, b ∈ bits -> b < BIT_COUNT c) ->
  init c (ArgSet s) h = (Ok (mkGroupBitSet c s), h).
Proof.
  intros Hs Hlt. unfold init. rewrite (bind_Ok _ _ _ _ _ (read_Some _ _ _ Hs)).
  assert (forallb (fun i => i <? BIT_COUNT c) (elements bits) = true) as ->; [|done].
  apply forallb_forall. intros b Hb%list_elem_of_In%elem_of_elements.
  apply Z.ltb_lt. auto.
Qed.

Lemma init_from_set_too_large (c : width) (s : loc) (h : set_store)
    (bits : gset Z) (b : Z) :
  h !! s = Some bits -> b ∈ bits -> BIT_COUNT c <= b ->
  init c (ArgSet s) h = (Raise (TypeError MsgSetFlagsTooLarge), h).
Proof.
  intros Hs Hb Hge. unfold init. rewrite (bind_Ok _ _ _ _ _ (read_Some _ _ _ Hs)).
  destruct (forallb _ _) eqn:Hall; [|done].
  rewrite forallb_forall in Hall.
  assert (Hlt : (b <? BIT_COUNT c) = true).
  { apply Hall, list_elem_of_In, elem_of_elements, Hb. }
  apply Z.ltb_lt in Hlt. lia.
Qed.

Lemma init_from_list (c : width) (l : list Z) (h : set_store) :
  init c (ArgList l) h
  = (Ok (mkGroupBitSet c (fresh (dom h))),
     <[fresh (dom h) := ⋃ (imap word_bits l)]> h).
Proof.
  unfold init, int_group_to_bit_set, bind, lift, alloc, ret.
  by rewrite decide_True.
Qed.

Lemma to_uints_Some (g : GroupBitSet) (h : set_store) (bits : gset Z) :
  h !! enabled_bits g = Some bits ->
  to_uints g h
  = (Ok (bit_set_to_int_group bits (Z.to_nat (BIT_COUNT (cls g) / 32))), h).
Proof.
  intros Hs. unfold to_uints. by rewrite (bind_Ok _ _ _ _ _ (read_Some _ _ _ Hs)).
Qed.

Lemma to_sorted_bit_list_Some (g : GroupBitSet) (h : set_store) (bits : gset Z) :
  h !! enabled_bits g = Some bits ->
  to_sorted_bit_list g h = (Ok (sorted bits), h).
Proof.
  intros Hs. unfold to_sorted_bit_list.
  by rewrite (bind_Ok _ _ _ _ _ (read_Some _ _ _ Hs)).
Qed.

Lemma words_of_BIT_COUNT (c : width) :
  32 * Z.of_nat (Z.to_nat (BIT_COUNT c / 32)) = BIT_COUNT c.
Proof. by destruct c. Qed.

(** C3. For a set [S] of bit indices all in [0, BIT_COUNT), building a
    [GroupBitSet] from [S], encoding it with [to_uints], building a second
    instance from that word list and reading [to_sorted_bit_list] gives
    [sorted(S)]. *)
Theorem words_round_trip (c : width) (S : gset Z) (h : set_store) :
  (forall b, b ∈ S -> 0 <= b < BIT_COUNT c) ->
  fst ((s <- alloc S ;;
        a <- init c (ArgSet s) ;;
        words <- to_uints a ;;
        b <- init c (ArgList words) ;;
        to_sorted_bit_list b) h)
  = Ok (sorted S).
Proof.
  intros Hrange.
  set (s := fresh (dom h)). set (h1 := <[s := S]> h).
  assert (Hs : h1 !! s = Some S) by apply lookup_insert_eq.
  rewrite (bind_Ok _ _ h s h1) by done.
  rewrite (bind_Ok _ _ _ _ _ (init_from_set c s h1 S Hs
             (fun b Hb => proj2 (Hrange b Hb)))).
  rewrite (bind_Ok _ _ _ _ _ (to_uints_Some (mkGroupBitSet c s) h1 S Hs)).
  rewrite (bind_Ok _ _ _ _ _ (init_from_list c _ h1)).
  cbn [cls]. rewrite decode_encode.
  - erewrite to_sorted_bit_list_Some; [done|]. apply lookup_insert_eq.
  - intros b Hb. rewrite words_of_BIT_COUNT. auto.
Qed.

Lemma words_round_trip_witness :
  (forall b, b ∈ ({[0; 31; 32; 127]} : gset Z) -> 0 <= b < BIT_COUNT GroupBitSet128) /\
  fst ((s <- alloc {[0; 31; 32; 127]} ;;
        a <- init GroupBitSet128 (ArgSet s) ;;
        words <- to_uints a ;;
        b <- init GroupBitSet128 (ArgList words) ;;
        to_sorted_bit_list b) ∅)
  = Ok (sorted {[0; 31; 32; 127]}).
Proof.
  assert (H : forall b, b ∈ ({[0; 31; 32; 127]} : gset Z)
                        -> 0 <= b < BIT_COUNT GroupBitSet128).
  { intros b Hb. simpl.
    repeat (apply elem_of_union in Hb as [Hb|Hb]);
      apply elem_of_singleton in Hb; lia. }
  split; [exact H|].
  exact (words_round_trip GroupBitSet128 {[0; 31; 32; 127]} ∅ H).
Defined.

Example words_round_trip_example :
  fst ((s <- alloc {[0; 31; 32; 127]} ;;
        a <- init GroupBitSet128 (ArgSet s) ;;
        words <- to_uints a ;;
        b <- init GroupBitSet128 (ArgList words) ;;
        sorted_bits <- to_sorted_bit_list b ;;
        ret (words, sorted_bits)) ∅)
  = Ok ([2147483649; 1; 0; 2147483648], [0; 31; 32; 127]).
Proof. vm_compute. reflexivity. Qed.

Lemma add_in_range (g : GroupBitSet) (bit : Z) (h : set_store) (bits : gset Z) :
  h !! enabled_bits g = Some bits ->
  0 <= bit <= BIT_COUNT (cls g) ->
  add g bit h = (Ok tt, <[enabled_bits g := {[bit]} ∪ bits]> h).
Proof.
  intros Hs [H0 H1]. unfold add.
  apply Z.leb_le in H0, H1. rewrite H0, H1. cbn [andb negb].
  rewrite (bind_Ok _ _ _ _ _ (read_Some _ _ _ Hs)).
  by apply write_Some with bits.
Qed.

Lemma add_out_of_range (g : GroupBitSet) (bit : Z) (h : set_store) :
  bit < 0 \/ BIT_COUNT (cls g) < bit ->
  add g bit h = (Raise (ValueError MsgBitOutOfRange), h).
Proof.
  intros Hout. unfold add.
  destruct (Z.leb_spec 0 bit), (Z.leb_spec bit (BIT_COUNT (cls g)));
    cbn [andb negb]; try done; lia.
Qed.

(** C1. What [add] and the constructor do at the edges of
    [0, BIT_COUNT): [add(-1)] raises and [add(BIT_COUNT - 1)] succeeds, as
    the invariant requires; but [add(BIT_COUNT)] succeeds and leaves
    [BIT_COUNT] in [enabled_bits], and a set that holds [-1] is accepted
    by the constructor. *)
Theorem range_checks_at_the_edges (c : width) :
  fst ((s <- alloc ∅ ;; g <- init c (ArgSet s) ;; add g (-1)) ∅)
    = Raise (ValueError MsgBitOutOfRange)
  /\ fst ((s <- alloc ∅ ;; g <- init c (ArgSet s) ;;
           add g (BIT_COUNT c - 1) ;;; to_sorted_bit_list g) ∅)
    = Ok [BIT_COUNT c - 1]
  /\ fst ((s <- alloc ∅ ;; g <- init c (ArgSet s) ;;
           add g (BIT_COUNT c) ;;; to_sorted_bit_list g) ∅)
    = Ok [BIT_COUNT c]
  /\ fst ((s <- alloc {[-1]} ;; g <- init c (ArgSet s) ;;
           to_sorted_bit_list g) ∅)
    = Ok [-1].
Proof. destruct c; vm_compute; auto. Qed.

(** C2. The constructor passes the length of the word list itself as
    [assert_size], so a word list of any length is accepted: five words
    build a [GroupBitSet128] that holds bit 128. *)
Theorem any_word_count_accepted (c : width) (words : list Z) (h : set_store) :
  fst (init c (ArgList words) h) = Ok (mkGroupBitSet c (fresh (dom h)))
  /\ fst ((g <- init GroupBitSet128 (ArgList [0; 0; 0; 0; 1]) ;;
           to_sorted_bit_list g) ∅)
     = Ok [128].
Proof.
  split.
  - by rewrite init_from_list.
  - vm_compute. reflexivity.
Qed.

(** C9. An instance built from another instance of its class holds the
    same [set] object, not a copy of it: [add] and [remove] through either
    one show through the other. *)
Theorem copy_shares_enabled_bits (c : width) :
  (forall (s : loc) (h : set_store),
     init c (ArgInstance (mkGroupBitSet c s)) h = (Ok (mkGroupBitSet c s), h))
  /\ fst ((s <- alloc {[1]} ;; a <- init c (ArgSet s) ;;
           b <- init c (ArgInstance a) ;;
           add b 2 ;;; to_sorted_bit_list a) ∅)
     = Ok [1; 2]
  /\ fst ((s <- alloc {[1]} ;; a <- init c (ArgSet s) ;;
           b <- init c (ArgInstance a) ;;
           remove a 1 ;;; to_sorted_bit_list b) ∅)
     = Ok [].
Proof.
  split; [|destruct c; vm_compute; auto].
  intros s h. unfold init. by rewrite decide_True.
Qed.

(** ** The textual form *)

Lemma strip_prefix_app (p s : pystr) : strip_prefix p (p ++ s) = Some s.
Proof.
  induction p as [|a p IH]; [done|].
  cbn [app strip_prefix]. by rewrite Z.eqb_refl.
Qed.

Lemma strip_prefix_Some (p s r : pystr) :
  strip_prefix p s = Some r -> s = p ++ r.
Proof.
  revert s. induction p as [|a p IH]; intros s; cbn [strip_prefix].
  - by intros [= ->].
  - destruct s as [|b s]; [done|].
    destruct (Z.eqb_spec a b) as [->|]; [|done].
    by intros ->%IH.
Qed.

Lemma is_digit_spec (c : Z) : is_digit c = true <-> ord "0" <= c <= ord "9".
Proof. unfold is_digit. rewrite andb_true_iff, !Z.leb_le. done. Qed.

Lemma forallb_is_digit (d : pystr) :
  forallb is_digit d = true <-> Forall (fun c => ord "0" <= c <= ord "9") d.
Proof.
  induction d as [|c d IH]; cbn [forallb].
  - split; [constructor|done].
  - by rewrite andb_true_iff, IH, list.Forall_cons, is_digit_spec.
Qed.

Lemma all_zeros_spec (d : pystr) :
  all_zeros d = true <-> Forall (eq (ord "0")) d.
Proof.
  unfold all_zeros. induction d as [|c d IH]; cbn [forallb].
  - split; [constructor|done].
  - rewrite andb_true_iff, IH, list.Forall_cons, Z.eqb_eq. done.
Qed.

Section pattern_facts.
Variable unicode_decimal : Z -> bool.

Lemma digit_in_tuple_class (c : Z) :
  is_digit c = true -> in_tuple_class unicode_decimal c = true.
Proof. unfold in_tuple_class, decimal_digit. by intros ->. Qed.

Lemma space_in_tuple_class : in_tuple_class unicode_decimal (ord " ") = true.
Proof. reflexivity. Qed.

Lemma comma_in_tuple_class : in_tuple_class unicode_decimal (ord ",") = true.
Proof. reflexivity. Qed.

Lemma span_tuple_class_app (body rest : pystr) (c : Z) :
  forallb (in_tuple_class unicode_decimal) body = true ->
  in_tuple_class unicode_decimal c = false ->
  span_tuple_class unicode_decimal (body ++ c :: rest) = (body, c :: rest).
Proof.
  intros Hbody Hc. induction body as [|a body IH].
  - cbn [app span_tuple_class]. by rewrite Hc.
  - cbn [forallb] in Hbody. apply andb_true_iff in Hbody as [Ha Hbody].
    cbn [app span_tuple_class]. by rewrite Ha, IH.
Qed.

Lemma span_tuple_class_spec (s body rest : pystr) :
  span_tuple_class unicode_decimal s = (body, rest) ->
  s = body ++ rest /\ forallb (in_tuple_class unicode_decimal) body = true.
Proof.
  revert body rest. induction s as [|a s IH]; intros body rest; cbn [span_tuple_class].
  - by intros [= <- <-].
  - destruct (in_tuple_class unicode_decimal a) eqn:Ha.
    + destruct (span_tuple_class unicode_decimal s) as [body' rest'] eqn:Hs.
      intros [= <- <-]. destruct (IH _ _ eq_refl) as [-> Hb].
      split; [done|]. cbn [forallb]. by rewrite Ha, Hb.
    + by intros [= <- <-].
Qed.

Lemma REPR_RE_match_intro (c : width) (body s : pystr) :
  tuple_text c body s ->
  forallb (in_tuple_class unicode_decimal) body = true ->
  REPR_RE_match unicode_decimal c s = Some (py "(" ++ body ++ py ")").
Proof.
  intros (nl & -> & Hnl) Hbody. unfold REPR_RE_match.
  rewrite strip_prefix_app.
  change (py "(" ++ body ++ py ")" ++ nl) with (ord "(" :: (body ++ ord ")" :: nl)).
  cbv beta iota. rewrite Z.eqb_refl, span_tuple_class_app by done.
  by destruct Hnl as [-> | ->].
Qed.

Lemma REPR_RE_match_elim (c : width) (s group1 : pystr) :
  REPR_RE_match unicode_decimal c s = Some group1 ->
  exists body,
    tuple_text c body s
    /\ group1 = py "(" ++ body ++ py ")"
    /\ forallb (in_tuple_class unicode_decimal) body = true.
Proof.
  unfold REPR_RE_match.
  destruct (strip_prefix (py (class_name c)) s) as [r|] eqn:Hp; [|done].
  apply strip_prefix_Some in Hp as ->.
  destruct r as [|a r]; [done|].
  destruct (Z.eqb_spec a (ord "(")) as [->|Hne]; [|done].
  destruct (span_tuple_class unicode_decimal r) as [body rest] eqn:Hspan.
  apply span_tuple_class_spec in Hspan as [-> Hbody].
  intros Hm. exists body.
  destruct rest as [|b rest]; [done|].
  destruct rest as [|nl rest].
  - destruct (Z.eqb_spec b (ord ")")) as [->|]; [|done].
    injection Hm as <-. split_and!; [|done..].
    exists []. split; [done|by left].
  - destruct rest; [|done].
    destruct (Z.eqb_spec b (ord ")")) as [->|]; [|done].
    destruct (Z.eqb_spec nl newline) as [->|]; [|done].
    injection Hm as <-. split_and!; [|done..].
    exists [newline]. split; [done|by right].
Qed.

(** The text in parentheses is determined by the string. *)
Lemma tuple_text_inj (c : width) (body body' s : pystr) :
  tuple_text c body s -> tuple_text c body' s ->
  forallb (in_tuple_class unicode_decimal) body = true ->
  forallb (in_tuple_class unicode_decimal) body' = true ->
  body = body'.
Proof.
  intros Ht Ht' Hb Hb'.
  pose proof (REPR_RE_match_intro c body s Ht Hb) as H1.
  pose proof (REPR_RE_match_intro c body' s Ht' Hb') as H2.
  rewrite H1 in H2. injection H2 as H2.
  apply app_inv_tail in H2. done.
Qed.

End pattern_facts.

(** *** Numbers *)

Ltac ord_values :=
  repeat match goal with
         | |- context [ord ?a] =>
             let v := eval vm_compute in (ord a) in change (ord a) with v
         end.

Lemma string_of_uint_digits (d : Decimal.uint) :
  forallb is_digit (py (NilEmpty.string_of_uint d)) = true.
Proof.
  induction d; cbn [NilEmpty.string_of_uint]; [done|..];
    change (py (String ?a ?s)) with (ord a :: py s); cbn [forallb];
    by rewrite IHd.
Qed.

Lemma of_uint_acc_value (d : Decimal.uint) (acc : positive) :
  Z.pos (Pos.of_uint_acc d acc)
  = foldl (fun acc c => 10 * acc + (c - ord "0")) (Z.pos acc)
          (py (NilEmpty.string_of_uint d)).
Proof.
  revert acc.
  induction d; intros acc; cbn [Pos.of_uint_acc NilEmpty.string_of_uint]; [done|..];
    change (py (String ?a ?s)) with (ord a :: py s); cbn [foldl];
    rewrite IHd; f_equal; ord_values; lia.
Qed.

Lemma decimal_value_string_of_uint (d : Decimal.uint) :
  decimal_value (py (NilEmpty.string_of_uint d)) = Z.of_uint d.
Proof.
  unfold decimal_value, Z.of_uint.
  induction d; cbn [Pos.of_uint NilEmpty.string_of_uint]; [done|..];
    change (py (String ?a ?s)) with (ord a :: py s); cbn [foldl];
    [exact IHd|..];
    (etransitivity; [|symmetry; apply (of_uint_acc_value d)]); done.
Qed.

Lemma to_uint_normal (n : N) : Decimal.unorm (N.to_uint n) = N.to_uint n.
Proof.
  rewrite <- (DecimalN.Unsigned.of_to n) at 2.
  symmetry. apply DecimalN.Unsigned.to_of.
Qed.

(** [str] of a non-negative int: the digits of a decimal numeral without
    a leading zero (but for ["0"] itself). *)
Lemma str_nonneg (z : Z) :
  0 <= z ->
  exists d, str z = py (NilEmpty.string_of_uint d)
            /\ Decimal.unorm d = d /\ Z.of_uint d = z.
Proof.
  intros Hz. exists (N.to_uint (Z.to_N z)). split_and!.
  - unfold str. destruct z as [|p|p]; [done| |lia].
    cbn. unfold NilZero.string_of_uint.
    pose proof (DecimalPos.Unsigned.to_uint_nonnil p).
    by destruct (Pos.to_uint p).
  - apply to_uint_normal.
  - unfold Z.of_uint. change Pos.of_uint with N.of_uint.
    rewrite DecimalN.Unsigned.of_to. lia.
Qed.

Lemma normal_D0 (d : Decimal.uint) :
  Decimal.unorm (Decimal.D0 d) = Decimal.D0 d -> d = Decimal.Nil.
Proof.
  rewrite DecimalFacts.unorm_D0. intros Hn.
  assert (Hh : Decimal.nzhead d = Decimal.Nil).
  { destruct (Decimal.nzhead d) eqn:Hh; [done|..]; exfalso;
      (rewrite DecimalFacts.unorm_nzhead in Hn by congruence);
      by apply DecimalFacts.nzhead_nonzero in Hn. }
  unfold Decimal.unorm in Hn. rewrite Hh in Hn. by injection Hn.
Qed.

Lemma decimal_integer_normal (d : Decimal.uint) :
  Decimal.unorm d = d ->
  decimal_integer (py (NilEmpty.string_of_uint d)) (Z.of_uint d).
Proof.
  intros Hn. split_and!.
  - by destruct d.
  - apply forallb_is_digit, string_of_uint_digits.
  - destruct d; try done.
    rewrite (normal_D0 d Hn). intros _. by repeat constructor.
  - symmetry. apply decimal_value_string_of_uint.
Qed.

(** [str] of a non-negative int is a decimal literal of that int. *)
Lemma decimal_integer_str (z : Z) : 0 <= z -> decimal_integer (str z) z.
Proof.
  intros (d & -> & Hn & <-)%str_nonneg. by apply decimal_integer_normal.
Qed.

Lemma decimal_literal_spec (d : pystr) (v : Z) :
  forallb is_digit d = true ->
  decimal_literal d = Ok v <-> decimal_integer d v.
Proof.
  intros Hd. unfold decimal_literal, decimal_integer.
  destruct d as [|c d]; [by split; [|intros [? _]]|].
  cbn [head]. split.
  - destruct (Z.eqb_spec c (ord "0")) as [->|Hc]; cbn [andb].
    + destruct (all_zeros (ord "0" :: d)) eqn:Hz; cbn [negb]; [|done].
      intros [= <-]. split_and!; [done|by apply forallb_is_digit| |done].
      intros _. by apply all_zeros_spec.
    + intros [= <-]. split_and!; [done|by apply forallb_is_digit| |done].
      intros [= ?]. done.
  - intros (_ & _ & Hzero & ->).
    destruct (Z.eqb_spec c (ord "0")) as [->|Hc]; cbn [andb]; [|done].
    by rewrite (proj2 (all_zeros_spec _) (Hzero eq_refl)).
Qed.

Lemma decimal_integer_digits (d : pystr) (v : Z) :
  decimal_integer d v -> forallb is_digit d = true.
Proof. intros (_ & Hd & _). by apply forallb_is_digit. Qed.

Lemma decimal_value_nonneg (d : pystr) :
  forallb is_digit d = true -> 0 <= decimal_value d.
Proof.
  intros Hd. unfold decimal_value.
  assert (H : forall acc, 0 <= acc ->
              0 <= foldl (fun acc c => 10 * acc + (c - ord "0")) acc d);
    [|by apply H].
  induction d as [|c d IH]; intros acc Hacc; [done|].
  cbn [forallb] in Hd. apply andb_true_iff in Hd as [Hc Hd].
  cbn [foldl]. apply IH; [done|].
  apply is_digit_spec in Hc. lia.
Qed.

Lemma decimal_integer_nonneg (d : pystr) (v : Z) :
  decimal_integer d v -> 0 <= v.
Proof.
  intros Hd. pose proof (decimal_integer_digits _ _ Hd).
  destruct Hd as (_ & _ & _ & ->). by apply decimal_value_nonneg.
Qed.

(** *** The tokens *)

Lemma map_result_Ok {A B} (f : A -> B) (r : result A) (b : B) :
  map_result f r = Ok b -> exists a, r = Ok a /\ b = f a.
Proof. destruct r; [|done]. intros [= <-]. eauto. Qed.

Lemma map_result_Raise {A B} (f : A -> B) (r : result A) (e : exn) :
  map_result f r = Raise e -> r = Raise e.
Proof. destruct r; [done|]. by intros [= ->]. Qed.

Lemma map_result_flush_nil (r : result (list token)) :
  map_result (flush []) r = r.
Proof. by destruct r. Qed.

Lemma flush_nonempty (cur : pystr) (ts : list token) :
  cur <> [] -> flush cur ts = TNum cur :: ts.
Proof. by destruct cur. Qed.

Lemma tokenize_digits (cur ds rest : pystr) :
  forallb is_digit ds = true ->
  tokenize cur (ds ++ rest) = tokenize (cur ++ ds) rest.
Proof.
  revert cur. induction ds as [|a ds IH]; intros cur Hds.
  - by rewrite app_nil_r.
  - cbn [forallb] in Hds. apply andb_true_iff in Hds as [Ha Hds].
    cbn [app tokenize]. rewrite Ha, IH by done.
    by rewrite <- app_assoc.
Qed.

Lemma tokenize_spaces (w rest : pystr) :
  spaces w -> tokenize [] (w ++ rest) = tokenize [] rest.
Proof.
  induction 1 as [|c w <- Hw IH]; [done|].
  cbn [app tokenize]. change (is_digit (ord " ")) with false.
  change (ord " " =? ord " ") with true. cbv beta iota.
  by rewrite map_result_flush_nil.
Qed.

(** Before anything but a digit, the number being read is complete. *)
Lemma tokenize_flush (cur s : pystr) :
  match s with c :: _ => is_digit c = false | [] => True end ->
  tokenize cur s = map_result (flush cur) (tokenize [] s).
Proof.
  destruct s as [|c s]; [done|]. intros Hc. cbn [tokenize]. rewrite Hc.
  destruct (c =? ord " "); [by rewrite map_result_flush_nil|].
  destruct (c =? ord ","); [|done].
  by destruct (tokenize [] s).
Qed.

Lemma tokenize_number (d s : pystr) :
  d <> [] -> forallb is_digit d = true ->
  match s with c :: _ => is_digit c = false | [] => True end ->
  tokenize [] (d ++ s) = map_result (cons (TNum d)) (tokenize [] s).
Proof.
  intros Hne Hd Hs. rewrite tokenize_digits by done. cbn [app].
  rewrite tokenize_flush by done.
  destruct (tokenize [] s); [|done]. cbn [map_result].
  by rewrite flush_nonempty.
Qed.

Lemma tokenize_head (cur s : pystr) (ts : list token) :
  cur <> [] -> tokenize cur s = Ok ts -> exists d ts', ts = TNum d :: ts'.
Proof.
  revert cur ts. induction s as [|c s IH]; intros cur ts Hne; cbn [tokenize].
  - intros [= <-]. rewrite flush_nonempty by done. eauto.
  - destruct (is_digit c).
    { apply IH. by destruct cur. }
    destruct (c =? ord " ").
    { intros (ts' & _ & ->)%map_result_Ok. rewrite flush_nonempty by done. eauto. }
    destruct (c =? ord ","); [|done].
    intros (ts' & _ & ->)%map_result_Ok. rewrite flush_nonempty by done. eauto.
Qed.

Lemma tokenize_error (cur s : pystr) (e : exn) :
  tokenize cur s = Raise e -> e = SyntaxError.
Proof.
  revert cur. induction s as [|c s IH]; intros cur; cbn [tokenize]; [done|].
  destruct (is_digit c); [apply IH|].
  destruct (c =? ord " "); [intros ?%map_result_Raise; eauto|].
  destruct (c =? ord ","); [intros ?%map_result_Raise; eauto|].
  by intros [= <-].
Qed.

Lemma decimal_literal_error (d : pystr) (e : exn) :
  decimal_literal d = Raise e -> e = SyntaxError.
Proof.
  unfold decimal_literal.
  repeat case_match; (done || by intros [= <-]).
Qed.

Lemma tuple_items_error (ts : list token) (e : exn) :
  tuple_items ts = Raise e -> e = SyntaxError.
Proof.
  revert e. induction ts as [ts IH] using (induction_ltof1 _ (@length token)).
  unfold ltof in IH. intros e.
  destruct ts as [|[d|] ts]; cbn [tuple_items]; [done| |by intros [= <-]].
  destruct (decimal_literal d) as [v|e'] eqn:Hd; cbn [bind_result].
  - destruct ts as [|[d'|] ts]; [done|by intros [= <-]|].
    intros ?%map_result_Raise. eapply IH; [|done]. cbn [length]. lia.
  - intros [= <-]. by eapply decimal_literal_error.
Qed.

(** [from_repr] makes a tuple of what [literal_eval] returns: together
    they give the items. *)
Lemma as_tuple_parenthesised (ts : list token) :
  map_result as_tuple (parenthesised ts) = tuple_items ts.
Proof.
  assert (H : forall r, map_result as_tuple (map_result LitTuple r) = r)
    by (by intros []).
  unfold parenthesised. destruct ts as [|[d|] [|t ts]]; try apply H.
  cbn [tuple_items]. by destruct (decimal_literal d).
Qed.

Lemma strip_parentheses_group (body : pystr) :
  strip_parentheses (py "(" ++ body ++ py ")") = Some body.
Proof.
  change (py "(" ++ body ++ py ")") with (ord "(" :: (body ++ [ord ")"])).
  unfold strip_parentheses. by rewrite last_snoc, removelast_last.
Qed.

Lemma literal_eval_group (body : pystr) :
  map_result as_tuple (literal_eval (py "(" ++ body ++ py ")"))
  = bind_result (tokenize [] body) tuple_items.
Proof.
  unfold literal_eval. rewrite strip_parentheses_group.
  destruct (tokenize [] body) as [ts|]; [|done].
  apply as_tuple_parenthesised.
Qed.

Lemma literal_eval_error (s : pystr) (e : exn) :
  literal_eval s = Raise e -> e = SyntaxError.
Proof.
  unfold literal_eval.
  destruct (strip_parentheses s); [|by intros [= <-]].
  destruct (tokenize [] _) as [ts|e'] eqn:Ht; cbn [bind_result].
  - intros Hp. apply (tuple_items_error ts).
    rewrite <- as_tuple_parenthesised, Hp. done.
  - intros [= <-]. by eapply tokenize_error.
Qed.

(** *** The items *)

Lemma spaces_nil : spaces [].
Proof. constructor. Qed.

Lemma spaces_cons (w : pystr) : spaces w -> spaces (ord " " :: w).
Proof. by constructor. Qed.

Lemma spaces_not_digit (w rest : pystr) (c : Z) :
  spaces w -> is_digit c = false ->
  match w ++ c :: rest with c' :: _ => is_digit c' = false | [] => True end.
Proof. by intros [|? ? <- _]. Qed.

Lemma spaces_end_not_digit (w : pystr) :
  spaces w ->
  match w with c' :: _ => is_digit c' = false | [] => True end.
Proof. by intros [|? ? <- _]. Qed.

Lemma tokenize_only_spaces (w : pystr) : spaces w -> tokenize [] w = Ok [].
Proof.
  intros Hw. rewrite <- (app_nil_r w). by rewrite tokenize_spaces.
Qed.

(** Every text of a tuple is read as the tuple. *)
Lemma items_complete (body : pystr) (l : list Z) :
  items body l ->
  exists ts, tokenize [] body = Ok ts /\ tuple_items ts = Ok l.
Proof.
  induction 1 as [w Hw|w1 d v w2 Hw1 Hd Hw2|w1 d v w2 rest l Hw1 Hd Hw2 Hrest IH].
  - exists []. by rewrite tokenize_only_spaces.
  - exists [TNum d]. split.
    + rewrite tokenize_spaces by done.
      rewrite tokenize_number, tokenize_only_spaces;
        [done|done|by destruct Hd|by eapply decimal_integer_digits
        |by apply spaces_end_not_digit].
    + cbn [tuple_items].
      by rewrite (proj2 (decimal_literal_spec d v (decimal_integer_digits _ _ Hd)) Hd).
  - destruct IH as (ts & Hts & Hl).
    exists (TNum d :: TComma :: ts). split.
    + rewrite tokenize_spaces by done.
      change (py "," ++ rest) with (ord "," :: rest).
      rewrite tokenize_number;
        [|by destruct Hd|by eapply decimal_integer_digits
         |by apply spaces_not_digit].
      rewrite tokenize_spaces by done. cbn [tokenize].
      change (is_digit (ord ",")) with false.
      change (ord "," =? ord " ") with false.
      change (ord "," =? ord ",") with true. cbv beta iota.
      by rewrite Hts.
    + cbn [tuple_items].
      rewrite (proj2 (decimal_literal_spec d v (decimal_integer_digits _ _ Hd)) Hd).
      cbn [bind_result]. by rewrite Hl.
Qed.

Lemma items_space (body : pystr) (l : list Z) :
  items body l -> items (ord " " :: body) l.
Proof.
  destruct 1 as [w Hw|w1 d v w2 Hw1 Hd Hw2|w1 d v w2 rest l Hw1 Hd Hw2 Hrest].
  - apply items_none. by apply spaces_cons.
  - apply (items_last (ord " " :: w1)); [by apply spaces_cons|done..].
  - apply (items_more (ord " " :: w1)); [by apply spaces_cons|done..].
Qed.

(** Whatever is read as a tuple is a text of it. The second part is
    about what follows a number. *)
Lemma items_sound_from (body cur : pystr) (ts : list token) :
  tokenize cur body = Ok ts ->
  forallb is_digit cur = true ->
  (forall l, tuple_items ts = Ok l -> items (cur ++ body) l)
  /\ (cur = [] ->
      forall l,
        match ts with
        | [] => Ok []
        | TComma :: ts' => tuple_items ts'
        | TNum _ :: _ => Raise SyntaxError
        end = Ok l ->
        (spaces body /\ l = [])
        \/ exists w rest, body = w ++ py "," ++ rest /\ spaces w /\ items rest l).
Proof.
  revert cur ts. induction body as [|c body IH]; intros cur ts; cbn [tokenize].
  - intros [= <-] Hcur. split.
    + intros l. destruct cur as [|a cur]; cbn [flush tuple_items].
      * intros [= <-]. apply items_none, spaces_nil.
      * destruct (decimal_literal (a :: cur)) as [v|] eqn:Hv; [|done].
        intros [= <-]. apply decimal_literal_spec in Hv; [|done].
        apply (items_last [] (a :: cur) v []); [apply spaces_nil|done|apply spaces_nil].
    + intros -> l [= <-]. left. split; [apply spaces_nil|done].
  - destruct (is_digit c) eqn:Hc.
    { intros Hts Hcur.
      assert (Hcur' : forallb is_digit (cur ++ [c]) = true).
      { rewrite forallb_app, Hcur. cbn. by rewrite Hc. }
      destruct (IH _ _ Hts Hcur') as [IH1 _]. split.
      - intros l Hl. rewrite (cons_middle c cur body), app_assoc. by apply IH1.
      - intros -> l.
        destruct (tokenize_head [c] body ts) as (d & ts' & ->); done. }
    destruct (Z.eqb_spec c (ord " ")) as [->|Hsp].
    { intros (ts' & Hts' & ->)%map_result_Ok Hcur.
      destruct (IH [] ts' Hts' eq_refl) as [IH1 IH2]. split.
      - intros l. destruct cur as [|a cur]; cbn [flush].
        + intros Hl. apply items_space. by apply IH1.
        + cbn [tuple_items].
          destruct (decimal_literal (a :: cur)) as [v|] eqn:Hv; [|done].
          apply decimal_literal_spec in Hv; [|done]. cbn [bind_result].
          intros Hl.
          assert (exists l0, l = v :: l0
                    /\ match ts' with
                       | [] => Ok []
                       | TComma :: ts'' => tuple_items ts''
                       | TNum _ :: _ => Raise SyntaxError
                       end = Ok l0) as (l0 & -> & Hl0).
          { destruct ts' as [|[d'|] ts'']; [|done|].
            - injection Hl as <-. eauto.
            - apply map_result_Ok in Hl as (l0 & ? & ->). eauto. }
          destruct (IH2 eq_refl l0 Hl0) as [[Hw ->]|(w & rest & -> & Hw & Hrest)].
          * apply (items_last [] (a :: cur) v (ord " " :: body));
              [apply spaces_nil|done|by apply spaces_cons].
          * apply (items_more [] (a :: cur) v (ord " " :: w) rest);
              [apply spaces_nil|done|by apply spaces_cons|done].
      - intros -> l Hl. cbn [flush] in Hl.
        destruct (IH2 eq_refl l Hl) as [[Hw ->]|(w & rest & -> & Hw & Hrest)].
        + left. split; [by apply spaces_cons|done].
        + right. exists (ord " " :: w), rest.
          split_and!; [done|by apply spaces_cons|done]. }
    destruct (Z.eqb_spec c (ord ",")) as [->|Hco]; [|done].
    intros (ts' & Hts' & ->)%map_result_Ok Hcur.
    destruct (IH [] ts' Hts' eq_refl) as [IH1 _]. split.
    + intros l. destruct cur as [|a cur]; cbn [flush tuple_items]; [done|].
      destruct (decimal_literal (a :: cur)) as [v|] eqn:Hv; [|done].
      apply decimal_literal_spec in Hv; [|done]. cbn [bind_result].
      intros (l' & Hl' & ->)%map_result_Ok.
      apply (items_more [] (a :: cur) v [] body);
        [apply spaces_nil|done|apply spaces_nil|].
      by apply IH1.
    + intros -> l Hl. cbn [flush] in Hl. right.
      exists [], body. split_and!; [done|apply spaces_nil|by apply IH1].
Qed.

Lemma items_sound (body : pystr) (ts : list token) (l : list Z) :
  tokenize [] body = Ok ts -> tuple_items ts = Ok l -> items body l.
Proof.
  intros Hts Hl. by apply (proj1 (items_sound_from body [] ts Hts eq_refl)).
Qed.

(** [literal_eval] and the conversion to a tuple, on the parenthesised
    part of a match: the items of the text, or a [SyntaxError] when it has
    none. *)
Lemma literal_eval_items (body : pystr) (l : list Z) :
  (exists lit, literal_eval (py "(" ++ body ++ py ")") = Ok lit /\ as_tuple lit = l)
  <-> items body l.
Proof.
  pose proof (literal_eval_group body) as Hg. split.
  - intros (lit & Hlit & <-). rewrite Hlit in Hg. cbn [map_result] in Hg.
    destruct (tokenize [] body) as [ts|] eqn:Hts; [|done].
    by apply (items_sound body ts).
  - intros (ts & Hts & Hl)%items_complete.
    rewrite Hts in Hg. cbn [bind_result] in Hg. rewrite Hl in Hg.
    by apply map_result_Ok in Hg as (lit & ? & [= ?]); eauto.
Qed.

Lemma items_nonneg (body : pystr) (l : list Z) :
  items body l -> Forall (fun z => 0 <= z) l.
Proof.
  induction 1; repeat constructor; eauto using decimal_integer_nonneg.
Qed.

Lemma items_in_tuple_class (unicode_decimal : Z -> bool) (body : pystr) (l : list Z) :
  items body l -> forallb (in_tuple_class unicode_decimal) body = true.
Proof.
  assert (Hsp : forall w, spaces w ->
                  forallb (in_tuple_class unicode_decimal) w = true).
  { induction 1 as [|c w <- _ IH]; [done|]. cbn [forallb]. by rewrite IH. }
  assert (Hdg : forall d v, decimal_integer d v ->
                  forallb (in_tuple_class unicode_decimal) d = true).
  { intros d v Hd%decimal_integer_digits.
    induction d as [|c d IH]; [done|]. cbn [forallb] in *.
    apply andb_true_iff in Hd as [Hc Hd].
    by rewrite (digit_in_tuple_class _ _ Hc), IH. }
  induction 1; rewrite ?forallb_app; cbn [forallb py];
    repeat (apply andb_true_iff; split); eauto.
Qed.

(** The items of a canonical text. *)
Lemma items_join (l : list Z) :
  Forall (fun z => 0 <= z) l -> items (join (py ", ") (map str l)) l.
Proof.
  induction 1 as [|x l Hx Hl IH]; [apply items_none, spaces_nil|].
  destruct l as [|y l].
  - cbn [map join]. rewrite <- (app_nil_r (str x)).
    apply (items_last [] (str x) x []);
      [apply spaces_nil|by apply decimal_integer_str|apply spaces_nil].
  - change (join (py ", ") (map str (x :: y :: l)))
      with ([] ++ str x ++ [] ++ py "," ++ ord " " :: join (py ", ") (map str (y :: l))).
    apply items_more;
      [apply spaces_nil|by apply decimal_integer_str|apply spaces_nil|].
    by apply items_space.
Qed.

Lemma sorted_elem_of (S : gset Z) (x : Z) : x ∈ sorted S <-> x ∈ S.
Proof. unfold sorted. by rewrite merge_sort_Permutation, elem_of_elements. Qed.


Lemma list_to_set_sorted (S : gset Z) : list_to_set (sorted S) = S.
Proof.
  apply set_eq. intros x. by rewrite elem_of_list_to_set, sorted_elem_of.
Qed.

(** *** [from_repr] *)

Section from_repr_facts.
Variable unicode_decimal : Z -> bool.

Lemma from_repr_unmatched (c : width) (s : pystr) (h : set_store) :
  REPR_RE_match unicode_decimal c s = None ->
  from_repr unicode_decimal c s h = (Raise (ValueError MsgInvalidSource), h).
Proof. intros Hm. unfold from_repr. by rewrite Hm. Qed.

(** No match: the string is not the class name and a parenthesised run
    of the character class. *)
Lemma REPR_RE_match_None (c : width) (s : pystr) :
  REPR_RE_match unicode_decimal c s = None
  <-> ~ exists body, tuple_text c body s
                     /\ forallb (in_tuple_class unicode_decimal) body = true.
Proof.
  split.
  - intros Hm (body & Ht & Hb).
    by rewrite (REPR_RE_match_intro unicode_decimal c body s Ht Hb) in Hm.
  - intros Hno. destruct (REPR_RE_match unicode_decimal c s) as [group1|] eqn:Hm; [|done].
    destruct Hno.
    apply REPR_RE_match_elim in Hm as (body & Ht & _ & Hb). eauto.
Qed.

(** A match whose parenthesised part is the text of a tuple: the
    constructor is given a new set of the items. *)
Lemma from_repr_items (c : width) (s body : pystr) (l : list Z) (h : set_store) :
  tuple_text c body s -> items body l ->
  from_repr unicode_decimal c s h
  = init c (ArgSet (fresh (dom h))) (<[fresh (dom h) := list_to_set l]> h).
Proof.
  intros Ht Hl. unfold from_repr.
  rewrite (REPR_RE_match_intro unicode_decimal c body s Ht)
    by by eapply items_in_tuple_class.
  destruct (proj2 (literal_eval_items body l) Hl) as (lit & -> & <-).
  done.
Qed.

(** A match whose parenthesised part is not the text of a tuple. *)
Lemma from_repr_no_items (c : width) (s body : pystr) (h : set_store) :
  tuple_text c body s ->
  forallb (in_tuple_class unicode_decimal) body = true ->
  (~ exists l, items body l) ->
  from_repr unicode_decimal c s h = (Raise SyntaxError, h).
Proof.
  intros Ht Hb Hno. unfold from_repr.
  rewrite (REPR_RE_match_intro unicode_decimal c body s Ht Hb).
  destruct (literal_eval (py "(" ++ body ++ py ")")) as [lit|e] eqn:Hlit.
  - destruct Hno. exists (as_tuple lit). apply literal_eval_items. eauto.
  - by apply literal_eval_error in Hlit as ->.
Qed.

Lemma init_new_set (c : width) (l : list Z) (h : set_store) :
  Forall (fun v => v < BIT_COUNT c) l ->
  init c (ArgSet (fresh (dom h))) (<[fresh (dom h) := list_to_set l]> h)
  = (Ok (mkGroupBitSet c (fresh (dom h))), <[fresh (dom h) := list_to_set l]> h).
Proof.
  intros Hl. apply init_from_set with (list_to_set l); [apply lookup_insert_eq|].
  intros b Hb%elem_of_list_to_set.
  by apply (proj1 (list.Forall_forall _ _) Hl).
Qed.

Lemma init_new_set_too_large (c : width) (l : list Z) (h : set_store) :
  Exists (fun v => BIT_COUNT c <= v) l ->
  init c (ArgSet (fresh (dom h))) (<[fresh (dom h) := list_to_set l]> h)
  = (Raise (TypeError MsgSetFlagsTooLarge), <[fresh (dom h) := list_to_set l]> h).
Proof.
  intros (b & Hb & Hbig)%list.Exists_exists.
  apply init_from_set_too_large with (list_to_set l) b;
    [apply lookup_insert_eq|by apply elem_of_list_to_set|done].
Qed.

Lemma below_or_not (c : width) (l : list Z) :
  Forall (fun v => v < BIT_COUNT c) l \/ Exists (fun v => BIT_COUNT c <= v) l.
Proof.
  induction l as [|v l [IH|IH]]; [by left| |by right; right].
  destruct (Z.lt_ge_cases v (BIT_COUNT c)); [left|right]; by constructor.
Qed.

(** The four outcomes of [from_repr]. *)
Lemma from_repr_cases (c : width) (s : pystr) (h : set_store) :
  ((~ exists body, tuple_text c body s
                   /\ forallb (in_tuple_class unicode_decimal) body = true)
   /\ from_repr unicode_decimal c s h = (Raise (ValueError MsgInvalidSource), h))
  \/ (exists body,
        tuple_text c body s
        /\ forallb (in_tuple_class unicode_decimal) body = true
        /\ (~ exists l, items body l)
        /\ from_repr unicode_decimal c s h = (Raise SyntaxError, h))
  \/ (exists body l,
        tuple_text c body s /\ items body l
        /\ Exists (fun v => BIT_COUNT c <= v) l
        /\ from_repr unicode_decimal c s h
           = (Raise (TypeError MsgSetFlagsTooLarge),
              <[fresh (dom h) := list_to_set l]> h))
  \/ (exists body l,
        tuple_text c body s /\ items body l
        /\ Forall (fun v => v < BIT_COUNT c) l
        /\ from_repr unicode_decimal c s h
           = (Ok (mkGroupBitSet c (fresh (dom h))),
              <[fresh (dom h) := list_to_set l]> h)).
Proof.
  destruct (REPR_RE_match unicode_decimal c s) as [group1|] eqn:Hm.
  2:{ left. split; [by apply REPR_RE_match_None|by apply from_repr_unmatched]. }
  right. apply REPR_RE_match_elim in Hm as (body & Ht & _ & Hb).
  destruct (literal_eval (py "(" ++ body ++ py ")")) as [lit|e] eqn:Hlit.
  2:{ left. exists body. split_and!; [done..| |].
      - intros (l & (lit & Hlit' & _)%literal_eval_items). congruence.
      - apply from_repr_no_items with body; [done..|].
        intros (l & (lit & Hlit' & _)%literal_eval_items). congruence. }
  right.
  assert (Hl : items body (as_tuple lit)) by (apply literal_eval_items; eauto).
  rewrite (from_repr_items c s body _ h Ht Hl).
  destruct (below_or_not c (as_tuple lit)) as [Hall|Hex]; [right|left];
    exists body, (as_tuple lit); split_and!; try done.
  - by apply init_new_set.
  - by apply init_new_set_too_large.
Qed.

(** Decoding the canonical text of a set of bits that are not negative
    gives the constructor a new set of the same bits. *)
Lemma from_repr_canonical_text_nonneg (c : width) (S : gset Z) (h : set_store) :
  (forall b, b ∈ S -> 0 <= b) ->
  from_repr unicode_decimal c (canonical_text c S) h
  = init c (ArgSet (fresh (dom h))) (<[fresh (dom h) := S]> h).
Proof.
  intros Hrange.
  assert (Hnn : Forall (fun z => 0 <= z) (sorted S)).
  { apply list.Forall_forall. intros x Hx%sorted_elem_of. by apply Hrange. }
  rewrite (from_repr_items c _ (join (py ", ") (map str (sorted S))) (sorted S) h).
  - by rewrite list_to_set_sorted.
  - exists []. split; [|by left]. unfold canonical_text. by rewrite app_nil_r.
  - by apply items_join.
Qed.

(** Decoding the canonical text of a set of valid bit indices builds a
    new set object that holds the same bits. *)
Lemma from_repr_canonical_text (c : width) (S : gset Z) (h : set_store) :
  (forall b, b ∈ S -> 0 <= b < BIT_COUNT c) ->
  from_repr unicode_decimal c (canonical_text c S) h
  = (Ok (mkGroupBitSet c (fresh (dom h))), <[fresh (dom h) := S]> h).
Proof.
  intros Hrange.
  rewrite from_repr_canonical_text_nonneg by (intros b Hb; by apply Hrange).
  apply init_from_set with S; [apply lookup_insert_eq|].
  intros b Hb. by apply Hrange.
Qed.

End from_repr_facts.

Lemma repr_Some (g : GroupBitSet) (h : set_store) (bits : gset Z) :
  h !! enabled_bits g = Some bits ->
  repr g h = (Ok (canonical_text (cls g) bits), h).
Proof.
  intros Hs. unfold repr. by rewrite (bind_Ok _ _ _ _ _ (read_Some _ _ _ Hs)).
Qed.

(** C8, as the code has it. For a set [S] of valid bit indices,
    [from_repr] of the [repr] of an instance that holds [S] gives an
    instance that holds [S]. [from_repr] returns an instance exactly on
    the class name followed by the parenthesised text of a tuple of ints
    below [BIT_COUNT] (and possibly one final newline), and the instance
    holds a new set of those ints. On every other string it raises: its
    format error, the [ValueError], exactly when the string is not the
    class name followed by a parenthesised run of decimal digits, commas
    and spaces; a [SyntaxError] when it is, but the run is not the text
    of a tuple; the [TypeError] of the constructor only for the text of a
    tuple with an int that is [BIT_COUNT] or more, and for every such
    text whose ints have at most 640 digits (an interpreter may refuse to
    convert a longer literal, see [sys.set_int_max_str_digits]). *)
Theorem text_round_trip (unicode_decimal : Z -> bool) (c : width) (S : gset Z)
    (h : set_store) :
  (forall b, b ∈ S -> 0 <= b < BIT_COUNT c) ->
  fst ((s <- alloc S ;;
        a <- init c (ArgSet s) ;;
        text <- repr a ;;
        b <- from_repr unicode_decimal c text ;;
        read (enabled_bits b)) h)
  = Ok S
  /\ forall (s : pystr) (h' : set_store),
       (forall g h'',
          from_repr unicode_decimal c s h' = (Ok g, h'')
          <-> exists body l,
                tuple_text c body s /\ items body l
                /\ Forall (fun v => v < BIT_COUNT c) l
                /\ g = mkGroupBitSet c (fresh (dom h'))
                /\ h'' = <[fresh (dom h') := list_to_set l]> h')
       /\ (fst (from_repr unicode_decimal c s h') = Raise (ValueError MsgInvalidSource)
           <-> ~ exists body,
                   tuple_text c body s
                   /\ forallb (in_tuple_class unicode_decimal) body = true)
       /\ (forall body,
             tuple_text c body s ->
             forallb (in_tuple_class unicode_decimal) body = true ->
             (~ exists l, items body l) ->
             fst (from_repr unicode_decimal c s h') = Raise SyntaxError)
       /\ (fst (from_repr unicode_decimal c s h') = Raise (TypeError MsgSetFlagsTooLarge)
           -> exists body l,
                tuple_text c body s /\ items body l
                /\ Exists (fun v => BIT_COUNT c <= v) l)
       /\ (forall body l,
             tuple_text c body s -> items body l ->
             Exists (fun v => BIT_COUNT c <= v) l ->
             Forall (fun v => v < 10 ^ 640) l ->
             fst (from_repr unicode_decimal c s h')
             = Raise (TypeError MsgSetFlagsTooLarge))
       /\ ((exists g, fst (from_repr unicode_decimal c s h') = Ok g)
           \/ fst (from_repr unicode_decimal c s h') = Raise (ValueError MsgInvalidSource)
           \/ fst (from_repr unicode_decimal c s h') = Raise SyntaxError
           \/ fst (from_repr unicode_decimal c s h')
              = Raise (TypeError MsgSetFlagsTooLarge)).
Proof.
  intros Hrange. split.
  - set (s := fresh (dom h)). set (h1 := <[s := S]> h).
    assert (Hs : h1 !! s = Some S) by apply lookup_insert_eq.
    rewrite (bind_Ok _ _ h s h1) by done.
    rewrite (bind_Ok _ _ _ _ _ (init_from_set c s h1 S Hs
               (fun b Hb => proj2 (Hrange b Hb)))).
    rewrite (bind_Ok _ _ _ _ _ (repr_Some (mkGroupBitSet c s) h1 S Hs)).
    cbn [cls].
    rewrite (bind_Ok _ _ _ _ _ (from_repr_canonical_text unicode_decimal c S h1 Hrange)).
    cbn [enabled_bits]. by erewrite read_Some by apply lookup_insert_eq.
  - intros s h'.
    pose proof (from_repr_cases unicode_decimal c s h') as Hcases.
    split_and!.
    + intros g h''. split.
      * intros Hok.
        destruct Hcases as [[_ H]|[(body & _ & _ & _ & H)|[(body & l & _ & _ & _ & H)
                           |(body & l & Ht & Hl & Hall & H)]]];
          rewrite H in Hok; try discriminate.
        injection Hok as <- <-. exists body, l. done.
      * intros (body & l & Ht & Hl & Hall & -> & ->).
        rewrite (from_repr_items unicode_decimal c s body l h' Ht Hl).
        by apply init_new_set.
    + split.
      * intros Hr Hshape.
        destruct Hcases as [[Hno _]|[(body & _ & _ & _ & H)|[(body & l & _ & _ & _ & H)
                           |(body & l & _ & _ & _ & H)]]];
          [by apply Hno|rewrite H in Hr; discriminate..].
      * intros Hno%REPR_RE_match_None. by rewrite from_repr_unmatched.
    + intros body Ht Hb Hno.
      by rewrite (from_repr_no_items unicode_decimal c s body h' Ht Hb Hno).
    + intros Hr.
      destruct Hcases as [[_ H]|[(body & _ & _ & _ & H)|[(body & l & Ht & Hl & Hex & H)
                         |(body & l & _ & _ & _ & H)]]];
        rewrite H in Hr; try discriminate.
      eauto.
    + intros body l Ht Hl Hex _.
      rewrite (from_repr_items unicode_decimal c s body l h' Ht Hl).
      by rewrite init_new_set_too_large.
    + destruct Hcases as [[_ H]|[(body & _ & _ & _ & H)|[(body & l & _ & _ & _ & H)
                         |(body & l & _ & _ & _ & H)]]];
        rewrite H; cbn [fst]; eauto.
Qed.

Lemma text_round_trip_witness :
  (forall b, b ∈ ({[5]} : gset Z) -> 0 <= b < BIT_COUNT GroupBitSet256)
  /\ fst ((s <- alloc {[5]} ;;
           a <- init GroupBitSet256 (ArgSet s) ;;
           text <- repr a ;;
           b <- from_repr TextExamples.unicode_decimal GroupBitSet256 text ;;
           read (enabled_bits b)) ∅)
     = Ok {[5]}.
Proof.
  assert (H : forall b, b ∈ ({[5]} : gset Z) -> 0 <= b < BIT_COUNT GroupBitSet256).
  { intros b Hb. apply elem_of_singleton in Hb. simpl. lia. }
  split; [exact H|].
  exact (proj1 (text_round_trip TextExamples.unicode_decimal GroupBitSet256 {[5]} ∅ H)).
Defined.

(** C8, as the claim is written, fails: [from_repr] accepts texts that
    are not canonical. The bits out of order are read as the set. *)
Lemma noncanonical_text_accepted :
  ~ canonical GroupBitSet128 (py "GroupBitSet128(2, 1)")
  /\ fst ((g <- from_repr TextExamples.unicode_decimal GroupBitSet128
                  (py "GroupBitSet128(2, 1)") ;;
           to_sorted_bit_list g) ∅)
     = Ok [1; 2].
Proof.
  split; [|vm_compute; reflexivity].
  intros (S & Hrange & Htext).
  pose proof (from_repr_canonical_text TextExamples.unicode_decimal
                GroupBitSet128 S ∅ Hrange) as Hfrom.
  rewrite <- Htext in Hfrom.
  assert (Hbits : snd (from_repr TextExamples.unicode_decimal GroupBitSet128
                         (py "GroupBitSet128(2, 1)") ∅)
                    !! fresh (dom (∅ : set_store)) = Some {[1; 2]})
    by (vm_compute; reflexivity).
  rewrite Hfrom in Hbits. cbn [snd] in Hbits.
  rewrite lookup_insert_eq in Hbits. injection Hbits as ->.
  vm_compute in Htext. discriminate.
Qed.

Example from_repr_examples :
  let from_repr := from_repr TextExamples.unicode_decimal GroupBitSet128 in
  fst ((g <- from_repr (py "GroupBitSet128(1,2)") ;; to_sorted_bit_list g) ∅)
  = Ok [1; 2]
  /\ fst ((g <- from_repr (py "GroupBitSet128(7)") ;; to_sorted_bit_list g) ∅)
     = Ok [7]
  /\ fst ((g <- from_repr (py "GroupBitSet128()") ;; to_sorted_bit_list g) ∅)
     = Ok []
  /\ fst ((g <- from_repr (py "GroupBitSet128(3, )" ++ [newline]) ;;
           to_sorted_bit_list g) ∅) = Ok [3]
  /\ fst ((g <- from_repr (py "GroupBitSet128(00, 2, 2)") ;;
           to_sorted_bit_list g) ∅) = Ok [0; 2]
  /\ fst (from_repr (py "GroupBitSet128(1 2)") ∅) = Raise SyntaxError
  /\ fst (from_repr (py "GroupBitSet128(01)") ∅) = Raise SyntaxError
  /\ fst (from_repr (py "GroupBitSet128(1,,2)") ∅) = Raise SyntaxError
  /\ fst (from_repr (py "GroupBitSet128(,)") ∅) = Raise SyntaxError
  /\ fst (from_repr (py "GroupBitSet128(" ++ [0x661] ++ py ")") ∅)
     = Raise SyntaxError
  /\ fst (from_repr (py "GroupBitSet128(128)") ∅)
     = Raise (TypeError MsgSetFlagsTooLarge)
  /\ fst (from_repr (py "GroupBitSet256(1)") ∅)
     = Raise (ValueError MsgInvalidSource)
  /\ fst (from_repr (py "GroupBitSet128(-1)") ∅)
     = Raise (ValueError MsgInvalidSource)
  /\ fst (from_repr (py "GroupBitSet128(1) ") ∅)
     = Raise (ValueError MsgInvalidSource).
Proof. vm_compute. repeat split. Qed.

(** ** [merge] *)

Module MergeFacts.
Import Merge.
Section merge_facts.
Context {MSBEntry : Type} (entry_name : MSBEntry -> string).
Implicit Types (h : gmap loc (list MSBEntry)) (msb : MSB).

Lemma assoc_Some_elem (n : string) (l : loc) (fs : list (string * loc)) :
  assoc n fs = Some l -> (n, l) ∈ fs.
Proof.
  unfold assoc. destruct (List.find _ fs) as [[n' l']|] eqn:Hf; [|done].
  intros [= <-]. apply find_some in Hf as [Hin Heq%String.eqb_eq].
  cbn in Heq. subst. by apply list_elem_of_In.
Qed.

Lemma assoc_is_Some (n : string) (fs : list (string * loc)) :
  n ∈ map fst fs -> is_Some (assoc n fs).
Proof.
  intros ((n' & l) & -> & Hin)%list_elem_of_fmap. unfold assoc.
  destruct (List.find _ fs) as [p|] eqn:Hf; [by eexists|].
  apply list_elem_of_In in Hin.
  pose proof (find_none _ _ Hf _ Hin) as Hne. cbn in Hne.
  by rewrite String.eqb_refl in Hne.
Qed.

Lemma intersection_nil (a b : list string) :
  intersection a b = [] <-> forall x, x ∈ a -> x ∉ b.
Proof.
  unfold intersection. induction a as [|x a IH]; cbn [List.filter].
  - split; [|done]. intros _ x Hx. by apply elem_of_nil in Hx.
  - case_bool_decide as Hx.
    + split; [done|]. intros Hall. exfalso. apply (Hall x); [left|done].
    + rewrite IH. split.
      * intros Hall y [->|Hy]%elem_of_cons; auto.
      * intros Hall y Hy. apply Hall. by right.
Qed.

(** One turn of the loop, for a subtype whose two lists are in the
    store. *)
Lemma merge_loop_cons msb_1 msb_2 ff allow n rest merged h l1 l2 es1 es2
      a1 h1 a2 h2 h3 :
  assoc n (msb_fields msb_1) = Some l1 ->
  assoc n (msb_fields msb_2) = Some l2 ->
  h !! l1 = Some es1 -> h !! l2 = Some es2 ->
  a1 = fresh (dom h) -> h1 = <[a1 := filtered ff es1]> h ->
  a2 = fresh (dom h1) -> h2 = <[a2 := filtered ff es2]> h1 ->
  h3 = <[a1 := filtered ff es1 ++ filtered ff es2]> h2 ->
  merge_loop entry_name msb_1 msb_2 ff allow (n :: rest) merged h
  = match repeated_names_of entry_name msb_1 msb_2 ff h n with
    | _ :: _ =>
        if allow
        then merge_loop entry_name msb_1 msb_2 ff allow rest (<[n := a1]> merged) h3
        else (Raise (ValueError MsgRepeatedNames), h2)
    | [] => merge_loop entry_name msb_1 msb_2 ff allow rest (<[n := a1]> merged) h3
    end.
Proof.
  intros Hl1 Hl2 Hes1 Hes2 -> -> -> ->. intros ->.
  set (a1 := fresh (dom h)). set (h1 := <[a1 := filtered ff es1]> h).
  set (a2 := fresh (dom h1)). set (h2 := <[a2 := filtered ff es2]> h1).
  assert (Ha1 : h !! a1 = None) by apply alloc_fresh.
  assert (Ha2 : h1 !! a2 = None) by apply alloc_fresh.
  assert (Hne : a1 <> a2).
  { intros Heq. rewrite <- Heq in Ha2. unfold h1 in Ha2.
    by rewrite lookup_insert_eq in Ha2. }
  assert (H1l2 : h1 !! l2 = Some es2).
  { unfold h1. rewrite lookup_insert_ne; [done|]. intros ->. congruence. }
  assert (H2a1 : h2 !! a1 = Some (filtered ff es1)).
  { unfold h2. rewrite lookup_insert_ne by done. apply lookup_insert_eq. }
  assert (H2a2 : h2 !! a2 = Some (filtered ff es2)) by apply lookup_insert_eq.
  unfold repeated_names_of. rewrite Hl1, Hl2, Hes1, Hes2.
  cbn [merge_loop]. unfold getattr at 1. rewrite Hl1.
  rewrite (bind_Ok _ _ h l1 h) by done.
  unfold get_filtered_list at 1.
  rewrite (bind_Ok _ _ h a1 h1).
  2:{ by rewrite (bind_Ok _ _ _ _ _ (read_Some _ _ _ Hes1)). }
  unfold getattr at 1. rewrite Hl2.
  rewrite (bind_Ok _ _ h1 l2 h1) by done.
  unfold get_filtered_list at 1.
  rewrite (bind_Ok _ _ h1 a2 h2).
  2:{ by rewrite (bind_Ok _ _ _ _ _ (read_Some _ _ _ H1l2)). }
  rewrite (bind_Ok _ _ h2 (map entry_name (filtered ff es1)) h2).
  2:{ unfold get_entry_names. by rewrite (bind_Ok _ _ _ _ _ (read_Some _ _ _ H2a1)). }
  rewrite (bind_Ok _ _ h2 (map entry_name (filtered ff es2)) h2).
  2:{ unfold get_entry_names. by rewrite (bind_Ok _ _ _ _ _ (read_Some _ _ _ H2a2)). }
  assert (Hext : extend a1 a2 h2
                 = (Ok tt, <[a1 := filtered ff es1 ++ filtered ff es2]> h2)).
  { unfold extend.
    rewrite (bind_Ok _ _ _ _ _ (read_Some _ _ _ H2a2)).
    rewrite (bind_Ok _ _ _ _ _ (read_Some _ _ _ H2a1)).
    by apply write_Some with (filtered ff es1). }
  destruct (intersection _ _) as [|x xs].
  - rewrite (bind_Ok _ _ h2 tt h2) by done.
    by rewrite (bind_Ok _ _ _ _ _ Hext).
  - destruct allow.
    + rewrite (bind_Ok _ _ h2 tt h2) by done.
      by rewrite (bind_Ok _ _ _ _ _ Hext).
    + by rewrite (bind_Raise _ _ h2 (ValueError MsgRepeatedNames) h2).
Qed.

Lemma ready_weaken msb_1 msb_2 h h' n :
  h ⊆ h' -> ready msb_1 msb_2 h n -> ready msb_1 msb_2 h' n.
Proof.
  intros Hsub (l1 & l2 & es1 & es2 & ? & ? & ? & ?).
  exists l1, l2, es1, es2. split_and!; try done; by apply (lookup_weaken h).
Qed.

Lemma repeated_names_of_weaken msb_1 msb_2 ff h h' n :
  h ⊆ h' -> ready msb_1 msb_2 h n ->
  repeated_names_of entry_name msb_1 msb_2 ff h' n
  = repeated_names_of entry_name msb_1 msb_2 ff h n.
Proof.
  intros Hsub (l1 & l2 & es1 & es2 & Hl1 & Hl2 & Hes1 & Hes2).
  unfold repeated_names_of. rewrite Hl1, Hl2, Hes1, Hes2.
  by rewrite (lookup_weaken _ _ _ _ Hes1 Hsub), (lookup_weaken _ _ _ _ Hes2 Hsub).
Qed.

Lemma subseteq_two_allocs h (a1 a2 : loc) (v1 v2 v3 : list MSBEntry) :
  h !! a1 = None -> (<[a1 := v1]> h) !! a2 = None ->
  h ⊆ <[a2 := v2]> (<[a1 := v1]> h)
  /\ h ⊆ <[a1 := v3]> (<[a2 := v2]> (<[a1 := v1]> h)).
Proof.
  intros Ha1 Ha2.
  assert (Hsub : h ⊆ <[a2 := v2]> (<[a1 := v1]> h)).
  { etrans; [by apply insert_subseteq|]. by apply insert_subseteq. }
  split; [done|].
  apply map_subseteq_spec. intros i x Hi.
  rewrite lookup_insert_ne by congruence.
  by apply (lookup_weaken h).
Qed.

(** What the loop returns and leaves in the store, for subtype names
    that both MSBs have. *)
Lemma merge_loop_spec msb_1 msb_2 ff allow names :
  forall merged h,
    (forall n, n ∈ names -> ready msb_1 msb_2 h n) ->
    exists r h',
      merge_loop entry_name msb_1 msb_2 ff allow names merged h = (r, h')
      /\ h ⊆ h'
      /\ match r with
         | Ok merged' =>
             (allow = true \/
              forall n, n ∈ names ->
                repeated_names_of entry_name msb_1 msb_2 ff h n = [])
             /\ (forall n, n ∉ names -> merged' !! n = merged !! n)
             /\ (forall n l1 l2 es1 es2,
                   n ∈ names ->
                   assoc n (msb_fields msb_1) = Some l1 ->
                   assoc n (msb_fields msb_2) = Some l2 ->
                   h !! l1 = Some es1 -> h !! l2 = Some es2 ->
                   exists l', merged' !! n = Some l' /\ h !! l' = None
                     /\ h' !! l' = Some (filtered ff es1 ++ filtered ff es2))
         | Raise e =>
             e = ValueError MsgRepeatedNames /\ allow = false
             /\ exists n, n ∈ names
                  /\ repeated_names_of entry_name msb_1 msb_2 ff h n <> []
         end.
Proof.
  induction names as [|n rest IH]; intros merged h Hready.
  { exists (Ok merged), h. split_and!; try done.
    - right. intros n Hn. by apply elem_of_nil in Hn.
    - intros n ???? Hn. by apply elem_of_nil in Hn. }
  destruct (Hready n) as (l1 & l2 & es1 & es2 & Hl1 & Hl2 & Hes1 & Hes2);
    [left|].
  set (a1 := fresh (dom h)). set (h1 := <[a1 := filtered ff es1]> h).
  set (a2 := fresh (dom h1)). set (h2 := <[a2 := filtered ff es2]> h1).
  set (h3 := <[a1 := filtered ff es1 ++ filtered ff es2]> h2).
  assert (Ha1 : h !! a1 = None) by apply alloc_fresh.
  assert (Ha2 : h1 !! a2 = None) by apply alloc_fresh.
  destruct (subseteq_two_allocs h a1 a2 (filtered ff es1) (filtered ff es2)
              (filtered ff es1 ++ filtered ff es2) Ha1 Ha2) as [Hsub2 Hsub3].
  fold h1 h2 in Hsub2. fold h1 h2 h3 in Hsub3.
  rewrite (merge_loop_cons msb_1 msb_2 ff allow n rest merged h l1 l2 es1 es2
             a1 h1 a2 h2 h3) by done.
  assert (Hcontinue :
    allow = true \/ repeated_names_of entry_name msb_1 msb_2 ff h n = [] ->
    exists r h',
      merge_loop entry_name msb_1 msb_2 ff allow rest (<[n := a1]> merged) h3
      = (r, h')
      /\ h ⊆ h'
      /\ match r with
         | Ok merged' =>
             (allow = true \/
              forall n0, n0 ∈ n :: rest ->
                repeated_names_of entry_name msb_1 msb_2 ff h n0 = [])
             /\ (forall n0, n0 ∉ n :: rest -> merged' !! n0 = merged !! n0)
             /\ (forall n0 l1 l2 es1 es2,
                   n0 ∈ n :: rest ->
                   assoc n0 (msb_fields msb_1) = Some l1 ->
                   assoc n0 (msb_fields msb_2) = Some l2 ->
                   h !! l1 = Some es1 -> h !! l2 = Some es2 ->
                   exists l', merged' !! n0 = Some l' /\ h !! l' = None
                     /\ h' !! l' = Some (filtered ff es1 ++ filtered ff es2))
         | Raise e =>
             e = ValueError MsgRepeatedNames /\ allow = false
             /\ exists n0, n0 ∈ n :: rest
                  /\ repeated_names_of entry_name msb_1 msb_2 ff h n0 <> []
         end).
  { intros Hhead.
    destruct (IH (<[n := a1]> merged) h3) as (r & h' & Hrun & Hsub & Hr).
    { intros n0 Hn0. apply (ready_weaken _ _ h); [done|].
      apply Hready. by right. }
    exists r, h'. split; [done|]. split; [by etrans|].
    destruct r as [merged'|e].
    - destruct Hr as (Hallow & Hframe & Hpost). split_and!.
      + destruct Hallow as [?|Hrest]; [by left|].
        destruct Hhead as [?|Hhead]; [by left|]. right.
        intros n0 [->|Hn0]%elem_of_cons; [done|].
        rewrite <- (repeated_names_of_weaken _ _ _ h h3) by
          (done || (apply Hready; by right)).
        by apply Hrest.
      + intros n0 Hn0. apply not_elem_of_cons in Hn0 as [Hne Hn0].
        rewrite Hframe by done. by rewrite lookup_insert_ne.
      + intros n0 l1' l2' es1' es2' Hn0 Hl1' Hl2' Hes1' Hes2'.
        destruct (decide (n0 ∈ rest)) as [Hin|Hnotin].
        * destruct (Hpost n0 l1' l2' es1' es2' Hin Hl1' Hl2')
            as (l' & Hm & Hnew & Hl');
            [by apply (lookup_weaken h)..|].
          exists l'. split_and!; try done.
          destruct (h !! l') as [x|] eqn:Hx; [|done].
          apply (lookup_weaken _ h3) in Hx; [congruence|done].
        * apply elem_of_cons in Hn0 as [->|?]; [|done].
          assert (l1' = l1) as -> by congruence.
          assert (l2' = l2) as -> by congruence.
          assert (es1' = es1) as -> by congruence.
          assert (es2' = es2) as -> by congruence.
          exists a1. rewrite Hframe by done.
          split_and!; [apply lookup_insert_eq|done|].
          apply (lookup_weaken h3); [apply lookup_insert_eq|done].
    - destruct Hr as (-> & -> & n0 & Hn0 & Hrep). split_and!; try done.
      exists n0. split; [by right|].
      rewrite <- (repeated_names_of_weaken _ _ _ h h3) by
        (done || (apply Hready; by right)).
      done. }
  destruct (repeated_names_of entry_name msb_1 msb_2 ff h n) as [|x xs] eqn:Hrep.
  - apply Hcontinue. by right.
  - destruct allow.
    + apply Hcontinue. by left.
    + exists (Raise (ValueError MsgRepeatedNames)), h2.
      split_and!; try done. exists n. split; [left|].
      by rewrite Hrep.
Qed.

Lemma construct_spec (names : list string) (kwargs : gmap string loc) :
  (forall n, n ∈ names -> is_Some (kwargs !! n)) ->
  exists fs, construct names kwargs = Ok fs /\ map fst fs = names
             /\ forall n, n ∈ names -> assoc n fs = kwargs !! n.
Proof.
  induction names as [|n rest IH]; intros Hall.
  { exists []. split_and!; try done. intros n Hn. by apply elem_of_nil in Hn. }
  destruct (Hall n) as [l Hl]; [left|].
  destruct IH as (fs & Hc & Hfst & Hassoc).
  { intros n0 Hn0. apply Hall. by right. }
  exists ((n, l) :: fs). cbn [construct]. rewrite Hl, Hc. split_and!.
  - done.
  - cbn [map fst]. by rewrite Hfst.
  - intros n0 Hn0. unfold assoc. cbn [List.find fst].
    destruct (String.eqb_spec n n0) as [->|Hne]; [done|].
    apply elem_of_cons in Hn0 as [->|Hn0]; [done|].
    by apply Hassoc.
Qed.

Lemma fields_ready msb_1 msb_2 h n :
  fields msb_1 = fields msb_2 ->
  well_formed msb_1 h -> well_formed msb_2 h ->
  n ∈ fields msb_1 -> ready msb_1 msb_2 h n.
Proof.
  intros Hfields Hwf1 Hwf2 Hn.
  destruct (assoc_is_Some n (msb_fields msb_1) Hn) as [l1 Hl1].
  rewrite Hfields in Hn.
  destruct (assoc_is_Some n (msb_fields msb_2) Hn) as [l2 Hl2].
  destruct (Hwf1 n l1 (assoc_Some_elem _ _ _ Hl1)) as [es1 Hes1].
  destruct (Hwf2 n l2 (assoc_Some_elem _ _ _ Hl2)) as [es2 Hes2].
  by exists l1, l2, es1, es2.
Qed.

Lemma repeated_names_of_nil msb_1 msb_2 ff h n l1 l2 es1 es2 :
  assoc n (msb_fields msb_1) = Some l1 ->
  assoc n (msb_fields msb_2) = Some l2 ->
  h !! l1 = Some es1 -> h !! l2 = Some es2 ->
  repeated_names_of entry_name msb_1 msb_2 ff h n = []
  <-> forall e1 e2, e1 ∈ filtered ff es1 -> e2 ∈ filtered ff es2 ->
                    entry_name e1 <> entry_name e2.
Proof.
  intros Hl1 Hl2 Hes1 Hes2. unfold repeated_names_of.
  rewrite Hl1, Hl2, Hes1, Hes2, intersection_nil. split.
  - intros Hall e1 e2 He1 He2 Heq.
    apply (Hall (entry_name e1)); [by apply list_elem_of_fmap_2|].
    rewrite Heq. by apply list_elem_of_fmap_2.
  - intros Hall x (e1 & -> & He1)%list_elem_of_fmap (e2 & Heq & He2)%list_elem_of_fmap.
    by apply (Hall e1 e2).
Qed.

(** C7. Two MSBs with the same field names, whose entries that pass
    the filter have no name in common in any subtype: [merge] returns a
    new MSB with the same fields, each referring to a new list that
    holds the filtered entries of the first followed by those of the
    second, so as many as both together. The lists of the inputs stay
    as they were. *)
Theorem merge_disjoint_names msb_1 msb_2 ff allow h :
  fields msb_1 = fields msb_2 ->
  well_formed msb_1 h -> well_formed msb_2 h ->
  ff <> FilterNotCallable ->
  (forall n l1 l2 es1 es2 e1 e2,
     assoc n (msb_fields msb_1) = Some l1 ->
     assoc n (msb_fields msb_2) = Some l2 ->
     h !! l1 = Some es1 -> h !! l2 = Some es2 ->
     e1 ∈ filtered ff es1 -> e2 ∈ filtered ff es2 ->
     entry_name e1 <> entry_name e2) ->
  exists merged h',
    merge entry_name msb_1 msb_2 ff allow h = (Ok merged, h')
    /\ fields merged = fields msb_1
    /\ (forall l es, h !! l = Some es -> h' !! l = Some es)
    /\ forall n l1 l2 es1 es2,
         assoc n (msb_fields msb_1) = Some l1 ->
         assoc n (msb_fields msb_2) = Some l2 ->
         h !! l1 = Some es1 -> h !! l2 = Some es2 ->
         exists l' es',
           assoc n (msb_fields merged) = Some l'
           /\ h !! l' = None
           /\ h' !! l' = Some es'
           /\ es' = filtered ff es1 ++ filtered ff es2
           /\ length es' = (length (filtered ff es1) + length (filtered ff es2))%nat.
Proof.
  intros Hfields Hwf1 Hwf2 Hff Hdisjoint.
  destruct (merge_loop_spec msb_1 msb_2 ff allow (fields msb_1) ∅ h)
    as (r & h' & Hrun & Hsub & Hr).
  { intros n Hn. by apply fields_ready. }
  destruct r as [kwargs|e].
  2:{ destruct Hr as (_ & _ & n & Hn & Hrep). exfalso. apply Hrep.
      destruct (fields_ready msb_1 msb_2 h n Hfields Hwf1 Hwf2 Hn)
        as (l1 & l2 & es1 & es2 & Hl1 & Hl2 & Hes1 & Hes2).
      rewrite (repeated_names_of_nil _ _ ff h n l1 l2 es1 es2) by done.
      intros e1 e2. by apply (Hdisjoint n l1 l2 es1 es2). }
  destruct Hr as (_ & _ & Hpost).
  destruct (construct_spec (fields msb_1) kwargs) as (fs & Hc & Hfst & Hassoc).
  { intros n Hn.
    destruct (fields_ready msb_1 msb_2 h n Hfields Hwf1 Hwf2 Hn)
      as (l1 & l2 & es1 & es2 & Hl1 & Hl2 & Hes1 & Hes2).
    destruct (Hpost n l1 l2 es1 es2 Hn Hl1 Hl2 Hes1 Hes2) as (l' & -> & _).
    by eexists. }
  exists (mkMSB fs), h'. split_and!.
  - unfold merge. destruct ff; try done;
      (rewrite decide_False by (by intros Hne; apply Hne));
      rewrite (bind_Ok _ _ _ _ _ Hrun); unfold bind, lift; by rewrite Hc.
  - done.
  - intros l es Hl. by apply (lookup_weaken h).
  - intros n l1 l2 es1 es2 Hl1 Hl2 Hes1 Hes2.
    assert (Hn : n ∈ fields msb_1).
    { apply assoc_Some_elem in Hl1. unfold fields.
      by apply (list_elem_of_fmap_2 fst) in Hl1. }
    destruct (Hpost n l1 l2 es1 es2 Hn Hl1 Hl2 Hes1 Hes2)
      as (l' & Hm & Hnew & Hl').
    exists l', (filtered ff es1 ++ filtered ff es2).
    cbn [msb_fields]. rewrite Hassoc by done.
    split_and!; try done. apply length_app.
Qed.

(** C6. Two MSBs with the same field names, and a subtype in which an
    entry of the first and an entry of the second, both passing the
    filter, have the same name: with [allow_repeated_names] false,
    [merge] raises the error of repeated names, returns no MSB, and
    every list of the store it started from, those of both inputs among
    them, is as it was. *)
Theorem merge_name_collision msb_1 msb_2 ff h n l1 l2 es1 es2 e1 e2 :
  fields msb_1 = fields msb_2 ->
  well_formed msb_1 h -> well_formed msb_2 h ->
  ff <> FilterNotCallable ->
  assoc n (msb_fields msb_1) = Some l1 ->
  assoc n (msb_fields msb_2) = Some l2 ->
  h !! l1 = Some es1 -> h !! l2 = Some es2 ->
  e1 ∈ filtered ff es1 -> e2 ∈ filtered ff es2 ->
  entry_name e1 = entry_name e2 ->
  exists h',
    merge entry_name msb_1 msb_2 ff false h
    = (Raise (ValueError MsgRepeatedNames), h')
    /\ forall l es, h !! l = Some es -> h' !! l = Some es.
Proof.
  intros Hfields Hwf1 Hwf2 Hff Hl1 Hl2 Hes1 Hes2 He1 He2 Hname.
  destruct (merge_loop_spec msb_1 msb_2 ff false (fields msb_1) ∅ h)
    as (r & h' & Hrun & Hsub & Hr).
  { intros n0 Hn0. by apply fields_ready. }
  assert (Hn : n ∈ fields msb_1).
  { pose proof (assoc_Some_elem _ _ _ Hl1) as Hin. unfold fields.
    by apply (list_elem_of_fmap_2 fst) in Hin. }
  destruct r as [kwargs|e].
  { destruct Hr as ([?|Hnone] & _); [done|]. exfalso.
    specialize (Hnone n Hn).
    rewrite (repeated_names_of_nil _ _ ff h n l1 l2 es1 es2) in Hnone by done.
    by apply (Hnone e1 e2). }
  destruct Hr as (-> & _). exists h'. split.
  - unfold merge. destruct ff; try done;
      (rewrite decide_False by (by intros Hne; apply Hne));
      by rewrite (bind_Raise _ _ _ _ _ Hrun).
  - intros l es Hl. by apply (lookup_weaken h).
Qed.
End merge_facts.
End MergeFacts.

Module MergeExampleFacts.
Import Merge MergeExamples.

Lemma lists_well_formed (l : loc) :
  l = 1%positive \/ l = 2%positive \/ l = 3%positive ->
  well_formed (MSBEntry := string * nat) (mkMSB [("collisions", l)]) lists.
Proof.
  intros Hl n l' Hin. apply list_elem_of_singleton in Hin. injection Hin as -> ->.
  destruct Hl as [->|[->| ->]]; by eexists.
Defined.

Lemma assoc_collisions (n : string) (l l' : loc) :
  assoc n [("collisions", l)] = Some l' -> l' = l.
Proof.
  unfold assoc. cbn [List.find fst].
  destruct (String.eqb "collisions" n); [|done]. by intros [= <-].
Defined.
End MergeExampleFacts.

Lemma merge_disjoint_names_witness :
  exists merged h',
    Merge.merge fst MergeExamples.msb_a MergeExamples.msb_b Merge.FilterNone false
                MergeExamples.lists = (Ok merged, h')
    /\ Merge.fields merged = Merge.fields MergeExamples.msb_a
    /\ (forall l es, MergeExamples.lists !! l = Some es -> h' !! l = Some es)
    /\ forall n l1 l2 es1 es2,
         Merge.assoc n (Merge.msb_fields MergeExamples.msb_a) = Some l1 ->
         Merge.assoc n (Merge.msb_fields MergeExamples.msb_b) = Some l2 ->
         MergeExamples.lists !! l1 = Some es1 ->
         MergeExamples.lists !! l2 = Some es2 ->
         exists l' es',
           Merge.assoc n (Merge.msb_fields merged) = Some l'
           /\ MergeExamples.lists !! l' = None
           /\ h' !! l' = Some es'
           /\ es' = Merge.filtered Merge.FilterNone es1 ++ Merge.filtered Merge.FilterNone es2
           /\ length es' = (length (Merge.filtered Merge.FilterNone es1)
                            + length (Merge.filtered Merge.FilterNone es2))%nat.
Proof.
  apply (MergeFacts.merge_disjoint_names fst MergeExamples.msb_a MergeExamples.msb_b
           Merge.FilterNone false MergeExamples.lists).
  - reflexivity.
  - apply MergeExampleFacts.lists_well_formed. auto.
  - apply MergeExampleFacts.lists_well_formed. auto.
  - discriminate.
  - intros n l1 l2 es1 es2 e1 e2 Hl1 Hl2 Hes1 Hes2 He1 He2.
    apply MergeExampleFacts.assoc_collisions in Hl1, Hl2. subst l1 l2.
    vm_compute in Hes1, Hes2. injection Hes1 as <-. injection Hes2 as <-.
    cbn [Merge.filtered] in He1, He2.
    apply list_elem_of_singleton in He2 as ->.
    apply elem_of_cons in He1 as [->|He1]; [discriminate|].
    apply list_elem_of_singleton in He1 as ->. discriminate.
Defined.

Lemma merge_name_collision_witness :
  exists h',
    Merge.merge fst MergeExamples.msb_a MergeExamples.msb_c Merge.FilterNone false
                MergeExamples.lists
    = (Raise (ValueError MsgRepeatedNames), h')
    /\ forall l es, MergeExamples.lists !! l = Some es -> h' !! l = Some es.
Proof.
  apply (MergeFacts.merge_name_collision fst MergeExamples.msb_a MergeExamples.msb_c
           Merge.FilterNone MergeExamples.lists "collisions"
           1%positive 3%positive
           [("h0000", 0%nat); ("h0001", 1%nat)] [("h0001", 3%nat)]
           ("h0001", 1%nat) ("h0001", 3%nat)).
  - reflexivity.
  - apply MergeExampleFacts.lists_well_formed. auto.
  - apply MergeExampleFacts.lists_well_formed. auto.
  - discriminate.
  - reflexivity.
  - reflexivity.
  - reflexivity.
  - reflexivity.
  - cbn [Merge.filtered]. right. left.
  - cbn [Merge.filtered]. left.
  - reflexivity.
Defined.

Example merge_examples :
  (exists h', Merge.merge fst MergeExamples.msb_a MergeExamples.msb_b
                Merge.FilterNone false MergeExamples.lists
              = (Ok (Merge.mkMSB [("collisions", 4%positive)]), h')
              /\ h' !! 4%positive
                 = Some [("h0000", 0%nat); ("h0001", 1%nat); ("h0002", 2%nat)]
              /\ h' !! 1%positive = Some [("h0000", 0%nat); ("h0001", 1%nat)])
  /\ fst (Merge.merge fst MergeExamples.msb_a MergeExamples.msb_c
            Merge.FilterNone true MergeExamples.lists)
     = Ok (Merge.mkMSB [("collisions", 4%positive)])
  /\ fst (Merge.merge fst MergeExamples.msb_a MergeExamples.msb_c
            (Merge.FilterFunc (fun e => Nat.eqb (snd e) 0)) false MergeExamples.lists)
     = Ok (Merge.mkMSB [("collisions", 4%positive)])
  /\ fst (Merge.merge fst MergeExamples.msb_a (Merge.mkMSB [("parts", 2%positive)])
            Merge.FilterNone false MergeExamples.lists)
     = Raise (TypeError MsgDifferentFieldNames).
Proof.
  split; [eexists; split; [vm_compute; reflexivity|split; vm_compute; reflexivity]|].
  vm_compute. auto.
Qed.

(** ** The batch transforms *)

Lemma for_each_ext {St A} (l : list A) (f g : A -> M St unit) (h : St) :
  (forall x h', f x h' = g x h') -> for_each l f h = for_each l g h.
Proof.
  intros Hfg. revert h. induction l as [|x l IH]; intros h; [done|].
  cbn [for_each]. unfold bind. rewrite Hfg.
  destruct (g x h) as [[[]|e] h']; [apply IH|done].
Qed.

Module TransformFacts.
Import Transform.
Section transform_facts.
Context {F Vector3 Matrix3 : Type}.
Context {vectors : Vectors F Vector3} {rotations : Rotations F Vector3 Matrix3}.
Local Abbreviation entry := (@MSBEntry F Vector3).
Implicit Types (h : gmap loc entry) (e : entry) (l : loc) (msb : MSB).

(** A loop that replaces each selected entry [e] of a list without
    repetition by [g e]. *)
Lemma for_each_selected_update (sel : loc -> bool) (g : entry -> entry)
      (body : loc -> M (gmap loc entry) unit) (ls : list loc) :
  (forall l h e, h !! l = Some e -> body l h = (Ok tt, <[l := g e]> h)) ->
  forall h,
    NoDup ls -> (forall l, l ∈ ls -> is_Some (h !! l)) ->
    exists h',
      for_each ls (fun l => if sel l then body l else ret tt) h = (Ok tt, h')
      /\ forall l, h' !! l = if bool_decide (l ∈ ls) && sel l
                             then g <$> (h !! l) else h !! l.
Proof.
  intros Hbody. induction ls as [|l0 ls IH]; intros h Hnodup Hin.
  { exists h. split; [done|]. intros l. by rewrite bool_decide_eq_false_2
      by (by intros ?%elem_of_nil). }
  apply list.NoDup_cons in Hnodup as [Hl0 Hnodup].
  destruct (Hin l0) as [e0 He0]; [left|].
  cbn [for_each]. destruct (sel l0) eqn:Hsel.
  - destruct (IH (<[l0 := g e0]> h) Hnodup) as (h' & Hrun & Hh').
    { intros l Hl. destruct (decide (l = l0)) as [->|Hne].
      - rewrite lookup_insert_eq. by eexists.
      - rewrite lookup_insert_ne by done. apply Hin. by right. }
    exists h'. split.
    { by rewrite (bind_Ok _ _ _ _ _ (Hbody l0 h e0 He0)). }
    intros l. rewrite Hh'. destruct (decide (l = l0)) as [->|Hne].
    + rewrite (bool_decide_eq_false_2 (l0 ∈ ls)) by done.
      rewrite bool_decide_eq_true_2 by left. cbn [andb].
      by rewrite Hsel, lookup_insert_eq, He0.
    + rewrite lookup_insert_ne by done.
      assert (bool_decide (l ∈ l0 :: ls) = bool_decide (l ∈ ls)) as ->; [|done].
      apply bool_decide_ext. rewrite elem_of_cons. intuition congruence.
  - destruct (IH h Hnodup) as (h' & Hrun & Hh').
    { intros l Hl. apply Hin. by right. }
    exists h'. split.
    { rewrite (bind_Ok _ _ h tt h); [exact Hrun|done]. }
    intros l. rewrite Hh'. destruct (decide (l = l0)) as [->|Hne].
    + rewrite (bool_decide_eq_false_2 (l0 ∈ ls)) by done.
      by rewrite Hsel, !andb_false_r.
    + assert (bool_decide (l ∈ l0 :: ls) = bool_decide (l ∈ ls)) as ->; [|done].
      apply bool_decide_ext. rewrite elem_of_cons. intuition congruence.
Qed.

Lemma translate_part_Some translate_by l h e :
  h !! l = Some e ->
  translate_part translate_by l h
  = (Ok tt, <[l := translated_part translate_by e]> h).
Proof.
  intros He. unfold translate_part, translated_part.
  rewrite (bind_Ok _ _ _ _ _ (read_Some _ _ _ He)).
  rewrite (bind_Ok _ _ _ _ _ (write_Some _ _ _ _ He)).
  rewrite (bind_Ok _ _ _ _ _ (read_Some _ _ _ (lookup_insert_eq _ _ _))).
  destruct (reflect_plane_height _) as [hh|].
  - erewrite write_Some by apply lookup_insert_eq. by rewrite insert_insert_eq.
  - done.
Qed.

Lemma translate_region_Some translate_by l h e :
  h !! l = Some e ->
  translate_region translate_by l h
  = (Ok tt, <[l := translated_region translate_by e]> h).
Proof.
  intros He. unfold translate_region, translated_region.
  rewrite (bind_Ok _ _ _ _ _ (read_Some _ _ _ He)).
  by apply write_Some with e.
Qed.

(** C5. [translate_all] on a map whose Parts and Regions are distinct
    objects of the store, with a selection that resolves: every
    selected Part and Region has [translate_by] added to its
    [translate]; a selected Part that has a [reflect_plane_height] has
    the [y] of [translate_by] added to it; class, name and [rotate] of
    every entry, and every entry that is not selected or not a Part or
    Region of the map, stay as they were. *)
Theorem translate_all_spec msb (translate_by : Vector3)
      (selected_entries : list selector) (selected : list loc) h :
  resolve_all msb h selected_entries = Ok selected ->
  NoDup (get_parts msb ++ get_regions msb) ->
  (forall l, l ∈ get_parts msb ++ get_regions msb -> is_Some (h !! l)) ->
  exists h',
    translate_all msb translate_by selected_entries h = (Ok tt, h')
    /\ (forall l, h !! l = None -> h' !! l = None)
    /\ forall l e,
         h !! l = Some e ->
         exists e',
           h' !! l = Some e'
           /\ class e' = class e /\ name e' = name e /\ rotate e' = rotate e
           /\ if is_selected selected l
              then
                (l ∈ get_parts msb ->
                   translate e' = vadd (translate e) translate_by
                   /\ reflect_plane_height e'
                      = (fun p => fadd p (vy translate_by))
                          <$> reflect_plane_height e)
                /\ (l ∈ get_regions msb ->
                      translate e' = vadd (translate e) translate_by
                      /\ reflect_plane_height e' = reflect_plane_height e)
                /\ (l ∉ get_parts msb ++ get_regions msb -> e' = e)
              else e' = e.
Proof.
  intros Hres Hnodup Hin.
  apply list.NoDup_app in Hnodup as (Hnd_parts & Hdisj & Hnd_regions).
  destruct (for_each_selected_update (is_selected selected)
              (translated_part translate_by) (translate_part translate_by)
              (get_parts msb) (translate_part_Some translate_by) h Hnd_parts)
    as (h1 & Hrun1 & Hh1).
  { intros l Hl. apply Hin, elem_of_app. by left. }
  destruct (for_each_selected_update (is_selected selected)
              (translated_region translate_by) (translate_region translate_by)
              (get_regions msb) (translate_region_Some translate_by) h1 Hnd_regions)
    as (h2 & Hrun2 & Hh2).
  { intros l Hl. rewrite Hh1.
    destruct (Hin l) as [e He]; [apply elem_of_app; by right|].
    rewrite He. by destruct (_ && _). }
  exists h2. split_and!.
  - unfold translate_all.
    rewrite (bind_Ok _ _ h selected h) by (unfold resolve_entries_list; by rewrite Hres).
    by rewrite (bind_Ok _ _ _ _ _ Hrun1).
  - intros l Hl. rewrite Hh2, Hh1, Hl. by repeat destruct (_ && _).
  - intros l e He. rewrite Hh2, Hh1, He.
    destruct (is_selected selected l) eqn:Hsel; rewrite ?andb_false_r, ?andb_true_r.
    2:{ by exists e. }
    destruct (decide (l ∈ get_parts msb)) as [Hp|Hp].
    + assert (Hr : l ∉ get_regions msb) by by apply Hdisj.
      rewrite (bool_decide_eq_true_2 _ Hp), (bool_decide_eq_false_2 _ Hr).
      exists (translated_part translate_by e). split; [done|].
      unfold translated_part. cbn.
      destruct (reflect_plane_height e) as [p|] eqn:Hrph; cbn; rewrite ?Hrph;
        split_and!; try done; intros Hnot; exfalso; apply Hnot, elem_of_app; auto.
    + rewrite (bool_decide_eq_false_2 _ Hp).
      destruct (decide (l ∈ get_regions msb)) as [Hr|Hr].
      * rewrite (bool_decide_eq_true_2 _ Hr).
        exists (translated_region translate_by e). split; [done|].
        unfold translated_region. cbn.
        split_and!; try done. intros Hnot; exfalso; apply Hnot, elem_of_app; auto.
      * rewrite (bool_decide_eq_false_2 _ Hr). exists e.
        split_and!; done.
Qed.

(** A selection that does not resolve leaves the store as it is. *)
Lemma translate_all_unresolved msb (translate_by : Vector3)
      (selected_entries : list selector) (x : exn) h :
  resolve_all msb h selected_entries = Raise x ->
  translate_all msb translate_by selected_entries h = (Raise x, h).
Proof.
  intros Hres. unfold translate_all.
  apply bind_Raise. unfold resolve_entries_list. by rewrite Hres.
Qed.

Lemma rotate_part_or_region_matrix (G : globals) l (m : Matrix3)
      (pivot_point : option Vector3) (radians : bool) h :
  rotate_part_or_region G l (RotMatrix m) pivot_point radians h
  = rotate_part_or_region G l (RotMatrix m) pivot_point false h.
Proof. reflexivity. Qed.

(** With the namespace the module has when it runs, the class test of
    [rotate_part_or_region] raises before anything is rotated. *)
Lemma rotate_part_or_region_module_globals l rotation
      (pivot_point : option Vector3) (radians : bool) h e :
  h !! l = Some e ->
  rotate_part_or_region module_globals l rotation pivot_point radians h
  = (Raise (NameError "BaseMSBPart"), h).
Proof.
  intros He. unfold rotate_part_or_region.
  by rewrite (bind_Ok _ _ _ _ _ (read_Some _ _ _ He)).
Qed.

(** C10. [rotate_all_in_world] resolves the rotation without its
    [radians] argument and hands the resulting matrix on, so the flag
    changes nothing: an Euler triple is read in degrees also when
    [radians] is true. (First line: whatever the namespace. Second
    line: a map of one Part, with the class names bound, rotated by
    the degrees reading of the triple. Third line: the same call in
    the namespace the module has when it runs.) *)
Theorem rotate_all_in_world_ignores_radians :
  (forall (G : globals) msb (rotation : rotation_arg)
          (pivot_point : option Vector3) (selected_entries : list selector) h,
     rotate_all_in_world G msb rotation pivot_point true selected_entries h
     = rotate_all_in_world G msb rotation pivot_point false selected_entries h)
  /\ (forall (n : string) (t r v : Vector3) (p : option F),
        let part := mkEntry BaseMSBPart n t r p in
        rotate_all_in_world type_checking_globals (mkMSB [1%positive] [])
          (RotEuler v) None true [] {[1%positive := part]}
        = (Ok tt,
           {[1%positive := rotated part (from_euler_angles v false) vzero]}))
  /\ (forall (n : string) (t r v : Vector3) (p : option F),
        let part := mkEntry BaseMSBPart n t r p in
        rotate_all_in_world module_globals (mkMSB [1%positive] [])
          (RotEuler v) None true [] {[1%positive := part]}
        = (Raise (NameError "BaseMSBPart"), {[1%positive := part]})).
Proof.
  split_and!.
  - intros G msb rotation pivot_point selected_entries h.
    unfold rotate_all_in_world, bind.
    destruct (resolve_entries_list msb selected_entries h) as [[sel|e] h0]; [|done].
    destruct (lift (resolve_rotation rotation false) h0) as [[m|e] h1]; [|done].
    rewrite (for_each_ext (get_parts msb) _
               (fun part => if is_selected sel part
                            then rotate_part_or_region G part (RotMatrix m)
                                   (Some (default vzero pivot_point)) false
                            else ret tt)).
    2:{ intros x h'. by destruct (is_selected sel x). }
    destruct (for_each (get_parts msb) _ h1) as [[[]|e] h2]; [|done].
    apply for_each_ext. intros x h'. by destruct (is_selected sel x).
  - intros n t r v p part. reflexivity.
  - intros n t r v p part. reflexivity.
Qed.

(** C4. In the namespace the module has when it runs, [move_map] on a
    map with a Part raises the [NameError] of the first
    [rotate_part_or_region] call: nothing is rotated and [translate_all]
    is not reached. *)
Theorem move_map_raises_NameError
      (e : entry) (start_translate end_translate start_rotate end_rotate
       : option Vector3) :
  move_map module_globals (mkMSB [1%positive] [])
           start_translate end_translate start_rotate end_rotate []
           {[1%positive := e]}
  = (Raise (NameError "BaseMSBPart"), {[1%positive := e]}).
Proof. reflexivity. Qed.

(** Were the two class names bound, [move_map] would do to a Part what
    C4 says: rotate it about the world origin by
    [EulerToMatrix(end_rotate) @ EulerToMatrix(start_rotate).T], then
    translate it by [end_translate - Rw @ start_translate]. *)
Lemma move_map_with_names_bound
      (n : string) (t r : Vector3) (p : option F)
      (start_translate end_translate start_rotate end_rotate : option Vector3) :
  let part := mkEntry BaseMSBPart n t r p in
  let Rw := matmul (from_euler_angles (default vzero end_rotate) false)
                   (transpose (from_euler_angles (default vzero start_rotate) false)) in
  let T := vsub (default vzero end_translate)
                (matvec Rw (default vzero start_translate)) in
  move_map type_checking_globals (mkMSB [1%positive] [])
           start_translate end_translate start_rotate end_rotate []
           {[1%positive := part]}
  = (Ok tt, {[1%positive := translated_part T (rotated part Rw vzero)]}).
Proof. intros part Rw T. destruct p; reflexivity. Qed.
End transform_facts.
End TransformFacts.

Lemma translate_all_spec_witness :
  exists h',
    Transform.translate_all TransformExamples.msb (0, 2, 0)
      [Transform.SelName "h0000"; Transform.SelEntry 3%positive]
      TransformExamples.entries = (Ok tt, h')
    /\ h' !! 1%positive
       = Some (Transform.mkEntry Transform.BaseMSBPart "h0000" (0, 2, 0) (0, 90, 0) (Some 7))
    /\ h' !! 2%positive = Some TransformExamples.rock
    /\ h' !! 3%positive
       = Some (Transform.mkEntry Transform.BaseMSBRegion "spawn" (1, 4, 3) (0, 0, 0) None).
Proof.
  destruct (TransformFacts.translate_all_spec TransformExamples.msb (0, 2, 0)
              [Transform.SelName "h0000"; Transform.SelEntry 3%positive]
              [1%positive; 3%positive] TransformExamples.entries)
    as (h' & Hrun & _ & _).
  - reflexivity.
  - apply (bool_decide_unpack _). vm_compute. exact I.
  - intros l Hl. cbn in Hl.
    repeat (apply elem_of_cons in Hl as [->|Hl]; [by eexists|]).
    by apply elem_of_nil in Hl.
  - exists h'. split; [exact Hrun|].
    vm_compute in Hrun. injection Hrun as <-.
    split_and!; vm_compute; reflexivity.
Defined.

Example translate_all_examples :
  fst (Transform.translate_all TransformExamples.msb (0, 2, 0)
         [Transform.SelName "nobody"] TransformExamples.entries)
    = Raise KeyError
  /\ snd (Transform.translate_all TransformExamples.msb (0, 2, 0) []
            TransformExamples.entries) !! 2%positive
     = Some (Transform.mkEntry Transform.BaseMSBPart "o1000" (10, 2, 0) (0, 0, 0) None).
Proof. vm_compute. auto. Qed.

(** * Further properties *)

(** ** [GroupBitSet]: [add], [remove] and [__or__] *)

Lemma remove_present (g : GroupBitSet) (bit : Z) (h : set_store) (bits : gset Z) :
  h !! enabled_bits g = Some bits -> bit ∈ bits ->
  0 <= bit <= BIT_COUNT (cls g) ->
  remove g bit h = (Ok tt, <[enabled_bits g := bits ∖ {[bit]}]> h).
Proof.
  intros Hs Hin [H0 H1]. unfold remove.
  apply Z.leb_le in H0, H1. rewrite H0, H1. cbn [andb negb].
  rewrite (bind_Ok _ _ _ _ _ (read_Some _ _ _ Hs)).
  rewrite decide_True by done. by apply write_Some with bits.
Qed.

Lemma remove_absent (g : GroupBitSet) (bit : Z) (h : set_store) (bits : gset Z) :
  h !! enabled_bits g = Some bits -> bit ∉ bits ->
  0 <= bit <= BIT_COUNT (cls g) ->
  remove g bit h = (Raise KeyError, h).
Proof.
  intros Hs Hnotin [H0 H1]. unfold remove.
  apply Z.leb_le in H0, H1. rewrite H0, H1. cbn [andb negb].
  rewrite (bind_Ok _ _ _ _ _ (read_Some _ _ _ Hs)).
  by rewrite decide_False.
Qed.

Lemma remove_out_of_range (g : GroupBitSet) (bit : Z) (h : set_store) :
  bit < 0 \/ BIT_COUNT (cls g) < bit ->
  remove g bit h = (Raise (ValueError MsgBitOutOfRange), h).
Proof.
  intros Hout. unfold remove.
  destruct (Z.leb_spec 0 bit), (Z.leb_spec bit (BIT_COUNT (cls g)));
    cbn [andb negb]; try done; lia.
Qed.

(** X1. [remove] of a bit that is not enabled raises [KeyError], of a bit
    outside [0, BIT_COUNT] the range error, and neither changes the set;
    [add] of a bit that was not enabled followed by [remove] of it gives
    back the store it started from. *)
Theorem remove_errors_and_undo (g : GroupBitSet) (bit : Z) (h : set_store)
    (bits : gset Z) :
  h !! enabled_bits g = Some bits -> bit ∉ bits ->
  (0 <= bit <= BIT_COUNT (cls g) -> remove g bit h = (Raise KeyError, h))
  /\ (bit < 0 \/ BIT_COUNT (cls g) < bit ->
      remove g bit h = (Raise (ValueError MsgBitOutOfRange), h))
  /\ (0 <= bit <= BIT_COUNT (cls g) ->
      (add g bit ;;; remove g bit) h = (Ok tt, h)).
Proof.
  intros Hs Hnotin. split_and!.
  - by apply remove_absent with bits.
  - apply remove_out_of_range.
  - intros Hin.
    rewrite (bind_Ok _ _ _ _ _ (add_in_range g bit h bits Hs Hin)).
    rewrite (remove_present g bit _ ({[bit]} ∪ bits)).
    + rewrite insert_insert_eq.
      assert ((({[bit]} ∪ bits) ∖ {[bit]}) = bits) as ->.
      { apply set_eq. intros x.
        rewrite elem_of_difference, elem_of_union, elem_of_singleton.
        split; [tauto|]. intros Hx. split; [tauto|]. by intros ->. }
      by rewrite insert_id.
    + apply lookup_insert_eq.
    + apply elem_of_union_l. by apply elem_of_singleton.
    + done.
Qed.

Lemma remove_errors_and_undo_witness :
  (remove (mkGroupBitSet GroupBitSet128 1%positive) 128 {[1%positive := {[3]}]}
   = (Raise KeyError, {[1%positive := {[3]}]}))
  /\ (add (mkGroupBitSet GroupBitSet128 1%positive) 128 ;;;
      remove (mkGroupBitSet GroupBitSet128 1%positive) 128) {[1%positive := {[3]}]}
     = (Ok tt, {[1%positive := {[3]}]}).
Proof.
  assert (Hs : ({[1%positive := {[3]}]} : set_store)
                 !! enabled_bits (mkGroupBitSet GroupBitSet128 1%positive) = Some {[3]})
    by reflexivity.
  assert (Hn : (128 : Z) ∉ ({[3]} : gset Z)).
  { intros Hin. apply elem_of_singleton in Hin. discriminate. }
  assert (Hr : 0 <= 128 <= BIT_COUNT (cls (mkGroupBitSet GroupBitSet128 1%positive)))
    by (simpl; lia).
  destruct (remove_errors_and_undo _ 128 _ _ Hs Hn) as (H1 & _ & H3).
  split; [exact (H1 Hr)|exact (H3 Hr)].
Defined.

(** X2. As far as [add] and [remove] go, the bits stay within
    [0, BIT_COUNT] (the upper end included): whatever the bit and
    whether or not the call raises, a set within these bounds is within
    them afterwards. *)
Theorem add_remove_keep_bounds (g : GroupBitSet) (bit : Z) (h : set_store)
    (bits : gset Z) :
  h !! enabled_bits g = Some bits ->
  (forall b, b ∈ bits -> 0 <= b <= BIT_COUNT (cls g)) ->
  (exists bits',
     snd (add g bit h) !! enabled_bits g = Some bits'
     /\ forall b, b ∈ bits' -> 0 <= b <= BIT_COUNT (cls g))
  /\ (exists bits',
        snd (remove g bit h) !! enabled_bits g = Some bits'
        /\ forall b, b ∈ bits' -> 0 <= b <= BIT_COUNT (cls g)).
Proof.
  intros Hs Hb.
  destruct (decide (0 <= bit <= BIT_COUNT (cls g))) as [Hin|Hout].
  - split.
    + rewrite (add_in_range g bit h bits Hs Hin). cbn [snd].
      rewrite lookup_insert_eq. eexists. split; [done|].
      intros b [->%elem_of_singleton|?]%elem_of_union; auto.
    + destruct (decide (bit ∈ bits)) as [Hbit|Hbit].
      * rewrite (remove_present g bit h bits Hs Hbit Hin). cbn [snd].
        rewrite lookup_insert_eq. eexists. split; [done|].
        intros b [? _]%elem_of_difference. auto.
      * rewrite (remove_absent g bit h bits Hs Hbit Hin). eauto.
  - assert (Hout' : bit < 0 \/ BIT_COUNT (cls g) < bit) by lia.
    split.
    + rewrite (add_out_of_range g bit h Hout'). eauto.
    + rewrite (remove_out_of_range g bit h Hout'). eauto.
Qed.

Lemma add_remove_keep_bounds_witness :
  (exists bits',
     snd (add (mkGroupBitSet GroupBitSet128 1%positive) 128 {[1%positive := {[3]}]})
       !! 1%positive = Some bits'
     /\ forall b, b ∈ bits' -> 0 <= b <= 128)
  /\ (exists bits',
        snd (remove (mkGroupBitSet GroupBitSet128 1%positive) 128 {[1%positive := {[3]}]})
          !! 1%positive = Some bits'
        /\ forall b, b ∈ bits' -> 0 <= b <= 128).
Proof.
  apply (add_remove_keep_bounds (mkGroupBitSet GroupBitSet128 1%positive) 128
           {[1%positive := {[3]}]} {[3]}).
  - reflexivity.
  - intros b Hb. apply elem_of_singleton in Hb. subst b. simpl. lia.
Defined.

(** The tail shared by the two branches of [__or__]: the union goes
    into a new set object, which the constructor accepts or rejects. *)
Lemma or_tail (c : width) (U : gset Z) (h : set_store) :
  (s <- alloc U ;; init c (ArgSet s)) h
  = (if forallb (fun i => i <? BIT_COUNT c) (elements U)
     then Ok (mkGroupBitSet c (fresh (dom h)))
     else Raise (TypeError MsgSetFlagsTooLarge),
     <[fresh (dom h) := U]> h).
Proof.
  unfold bind at 1, alloc, init.
  rewrite (bind_Ok _ _ _ _ _ (read_Some _ _ _ (lookup_insert_eq _ _ _))).
  by destruct (forallb _ _).
Qed.

Lemma or_instance (a b : GroupBitSet) (A B : gset Z) (h : set_store) :
  cls b = cls a ->
  h !! enabled_bits a = Some A -> h !! enabled_bits b = Some B ->
  or_ a (OrInstance b) h
  = (if forallb (fun i => i <? BIT_COUNT (cls a)) (elements (A ∪ B))
     then Ok (mkGroupBitSet (cls a) (fresh (dom h)))
     else Raise (TypeError MsgSetFlagsTooLarge),
     <[fresh (dom h) := A ∪ B]> h).
Proof.
  intros Hc Ha Hb. unfold or_. rewrite decide_True by done.
  rewrite (bind_Ok _ _ _ _ _ (read_Some _ _ _ Ha)).
  rewrite (bind_Ok _ _ _ _ _ (read_Some _ _ _ Hb)).
  apply or_tail.
Qed.

Lemma forallb_below (c : width) (U : gset Z) :
  forallb (fun i => i <? BIT_COUNT c) (elements U) = true
  <-> forall b, b ∈ U -> b < BIT_COUNT c.
Proof.
  rewrite forallb_forall. split.
  - intros Hall b Hb. apply Z.ltb_lt, Hall, list_elem_of_In, elem_of_elements, Hb.
  - intros Hall b Hb%list_elem_of_In%elem_of_elements. by apply Z.ltb_lt, Hall.
Qed.

(** X3. [a | b] for two instances of one class whose bits are all below
    [BIT_COUNT]: a new instance on a new set object that holds the union,
    with both operands left as they were; [b | a] gives the very same
    result. *)
Theorem or_is_union_and_commutes (a b : GroupBitSet) (A B : gset Z)
    (h : set_store) :
  cls b = cls a ->
  h !! enabled_bits a = Some A -> h !! enabled_bits b = Some B ->
  (forall x, x ∈ A ∪ B -> x < BIT_COUNT (cls a)) ->
  exists g h',
    or_ a (OrInstance b) h = (Ok g, h')
    /\ or_ b (OrInstance a) h = (Ok g, h')
    /\ h' !! enabled_bits g = Some (A ∪ B)
    /\ h !! enabled_bits g = None
    /\ h' !! enabled_bits a = Some A /\ h' !! enabled_bits b = Some B.
Proof.
  intros Hc Ha Hb Hbelow.
  pose proof (alloc_fresh h) as Hfresh.
  exists (mkGroupBitSet (cls a) (fresh (dom h))), (<[fresh (dom h) := A ∪ B]> h).
  split_and!.
  - rewrite (or_instance a b A B) by done.
    by rewrite (proj2 (forallb_below _ _) Hbelow).
  - rewrite (or_instance b a B A) by done.
    rewrite Hc, (union_comm_L B A).
    by rewrite (proj2 (forallb_below _ _) Hbelow).
  - apply lookup_insert_eq.
  - done.
  - rewrite lookup_insert_ne; [done|]. intros Heq. cbn in Heq. congruence.
  - rewrite lookup_insert_ne; [done|]. intros Heq. cbn in Heq. congruence.
Qed.

Lemma or_is_union_and_commutes_witness :
  exists g h',
    or_ (mkGroupBitSet GroupBitSet128 1%positive)
        (OrInstance (mkGroupBitSet GroupBitSet128 2%positive))
        (<[1%positive := {[1]}]> {[2%positive := {[2]}]}) = (Ok g, h')
    /\ or_ (mkGroupBitSet GroupBitSet128 2%positive)
           (OrInstance (mkGroupBitSet GroupBitSet128 1%positive))
           (<[1%positive := {[1]}]> {[2%positive := {[2]}]}) = (Ok g, h')
    /\ h' !! enabled_bits g = Some ({[1]} ∪ {[2]})
    /\ (<[1%positive := {[1]}]> {[2%positive := {[2]}]} : set_store)
         !! enabled_bits g = None
    /\ h' !! 1%positive = Some {[1]} /\ h' !! 2%positive = Some {[2]}.
Proof.
  apply (or_is_union_and_commutes (mkGroupBitSet GroupBitSet128 1%positive)
           (mkGroupBitSet GroupBitSet128 2%positive) {[1]} {[2]}).
  - reflexivity.
  - reflexivity.
  - reflexivity.
  - intros x [Hx|Hx]%elem_of_union; apply elem_of_singleton in Hx; subst x;
      simpl; lia.
Defined.

(** X4. [add(BIT_COUNT)] is accepted, and after it the instance cannot be
    united with anything of its class: the constructor that [__or__]
    calls rejects the union. *)
Theorem or_after_add_BIT_COUNT (a b : GroupBitSet) (A B : gset Z)
    (h : set_store) :
  cls b = cls a ->
  h !! enabled_bits a = Some A -> h !! enabled_bits b = Some B ->
  fst ((add a (BIT_COUNT (cls a)) ;;; or_ a (OrInstance b)) h)
    = Raise (TypeError MsgSetFlagsTooLarge)
  /\ fst ((add a (BIT_COUNT (cls a)) ;;; or_ b (OrInstance a)) h)
     = Raise (TypeError MsgSetFlagsTooLarge).
Proof.
  intros Hc Ha Hb.
  assert (Hrange : 0 <= BIT_COUNT (cls a) <= BIT_COUNT (cls a))
    by (destruct (cls a); simpl; lia).
  set (A' := {[BIT_COUNT (cls a)]} ∪ A).
  set (h1 := <[enabled_bits a := A']> h).
  assert (Ha1 : h1 !! enabled_bits a = Some A') by apply lookup_insert_eq.
  assert (exists B', h1 !! enabled_bits b = Some B') as [B' Hb1].
  { unfold h1. destruct (decide (enabled_bits a = enabled_bits b)) as [<-|Hne].
    - rewrite lookup_insert_eq. eauto.
    - rewrite lookup_insert_ne by done. eauto. }
  assert (Hnot : forall U : gset Z, BIT_COUNT (cls a) ∈ U ->
            forallb (fun i => i <? BIT_COUNT (cls a)) (elements U) = false).
  { intros U HU. apply not_true_is_false. intros Hall.
    pose proof (proj1 (forallb_below _ _) Hall _ HU). lia. }
  assert (HinA' : BIT_COUNT (cls a) ∈ A').
  { apply elem_of_union_l. by apply elem_of_singleton. }
  split.
  - rewrite (bind_Ok _ _ _ _ _ (add_in_range a _ h A Ha Hrange)).
    fold A' h1. rewrite (or_instance a b A' B') by done.
    rewrite Hnot; [done|]. by apply elem_of_union_l.
  - rewrite (bind_Ok _ _ _ _ _ (add_in_range a _ h A Ha Hrange)).
    fold A' h1. rewrite (or_instance b a B' A') by done.
    rewrite Hc, Hnot; [done|]. by apply elem_of_union_r.
Qed.

Lemma or_after_add_BIT_COUNT_witness :
  fst ((add (mkGroupBitSet GroupBitSet128 1%positive) 128 ;;;
        or_ (mkGroupBitSet GroupBitSet128 1%positive)
            (OrInstance (mkGroupBitSet GroupBitSet128 2%positive)))
         (<[1%positive := {[1]}]> {[2%positive := {[2]}]}))
    = Raise (TypeError MsgSetFlagsTooLarge)
  /\ fst ((add (mkGroupBitSet GroupBitSet128 1%positive) 128 ;;;
           or_ (mkGroupBitSet GroupBitSet128 2%positive)
               (OrInstance (mkGroupBitSet GroupBitSet128 1%positive)))
            (<[1%positive := {[1]}]> {[2%positive := {[2]}]}))
     = Raise (TypeError MsgSetFlagsTooLarge).
Proof.
  apply (or_after_add_BIT_COUNT (mkGroupBitSet GroupBitSet128 1%positive)
           (mkGroupBitSet GroupBitSet128 2%positive) {[1]} {[2]});
    reflexivity.
Defined.

(** ** [from_repr] and [__repr__] beyond the valid sets *)

(** X5. Whatever the string and the store, an instance that [from_repr]
    returns is of the class asked for and holds a new set object whose
    bits are all in [0, BIT_COUNT); nothing else in the store changes. *)
Theorem from_repr_result_valid (unicode_decimal : Z -> bool) (c : width)
    (s : pystr) (h h' : set_store) (g : GroupBitSet) :
  from_repr unicode_decimal c s h = (Ok g, h') ->
  cls g = c
  /\ h !! enabled_bits g = None
  /\ exists bits,
       h' = <[enabled_bits g := bits]> h
       /\ forall b, b ∈ bits -> 0 <= b < BIT_COUNT c.
Proof.
  intros Hok.
  destruct (from_repr_cases unicode_decimal c s h)
    as [[_ H]|[(body & _ & _ & _ & H)|[(body & l & _ & _ & _ & H)
       |(body & l & Ht & Hl & Hall & H)]]];
    rewrite H in Hok; try discriminate.
  injection Hok as <- <-. cbn [cls enabled_bits].
  split_and!; [done|apply alloc_fresh|].
  eexists. split; [done|]. intros b Hb%elem_of_list_to_set. split.
  - by apply (proj1 (list.Forall_forall _ _) (items_nonneg _ _ Hl)).
  - by apply (proj1 (list.Forall_forall _ _) Hall).
Qed.

Lemma from_repr_result_valid_witness :
  cls (mkGroupBitSet GroupBitSet128 1%positive) = GroupBitSet128
  /\ (∅ : set_store) !! enabled_bits (mkGroupBitSet GroupBitSet128 1%positive) = None
  /\ exists bits,
       snd (from_repr TextExamples.unicode_decimal GroupBitSet128
              (py "GroupBitSet128(2,1, 2)") ∅)
       = <[enabled_bits (mkGroupBitSet GroupBitSet128 1%positive) := bits]> ∅
       /\ forall b, b ∈ bits -> 0 <= b < BIT_COUNT GroupBitSet128.
Proof.
  apply (from_repr_result_valid TextExamples.unicode_decimal GroupBitSet128
           (py "GroupBitSet128(2,1, 2)") ∅).
  vm_compute. reflexivity.
Defined.






(** ** [merge]: the other outcomes *)

Module MergeMore.
Import Merge MergeFacts.
Section merge_more.
Context {MSBEntry : Type} (entry_name : MSBEntry -> string).
Implicit Types (h : gmap loc (list MSBEntry)) (msb : MSB).

(** Field names are compared as lists: when they differ, even only in
    their order, [merge] raises its [TypeError] before it reads any list,
    whatever the lists hold and whatever [allow_repeated_names], and
    the store is exactly as before. *)
Theorem merge_different_fields msb_1 msb_2 ff allow h :
  ff <> FilterNotCallable ->
  fields msb_1 <> fields msb_2 ->
  merge entry_name msb_1 msb_2 ff allow h
  = (Raise (TypeError MsgDifferentFieldNames), h).
Proof.
  intros Hff Hfields. unfold merge.
  destruct ff; try done; by rewrite decide_True.
Qed.

(** X7. With [allow_repeated_names] true, two MSBs with the same field names
    always merge: each list of the result is the filtered entries of the
    first followed by those of the second, entries with a repeated name
    included, and the lists of the store it started from are as they
    were. *)
Theorem merge_allowing_repeated_names msb_1 msb_2 ff h :
  fields msb_1 = fields msb_2 ->
  well_formed msb_1 h -> well_formed msb_2 h ->
  ff <> FilterNotCallable ->
  exists merged h',
    merge entry_name msb_1 msb_2 ff true h = (Ok merged, h')
    /\ fields merged = fields msb_1
    /\ (forall l es, h !! l = Some es -> h' !! l = Some es)
    /\ forall n l1 l2 es1 es2,
         assoc n (msb_fields msb_1) = Some l1 ->
         assoc n (msb_fields msb_2) = Some l2 ->
         h !! l1 = Some es1 -> h !! l2 = Some es2 ->
         exists l',
           assoc n (msb_fields merged) = Some l'
           /\ h !! l' = None
           /\ h' !! l' = Some (filtered ff es1 ++ filtered ff es2).
Proof.
  intros Hfields Hwf1 Hwf2 Hff.
  destruct (merge_loop_spec entry_name msb_1 msb_2 ff true (fields msb_1) ∅ h)
    as (r & h' & Hrun & Hsub & Hr).
  { intros n Hn. by apply fields_ready. }
  destruct r as [kwargs|e]; [|by destruct Hr as (_ & ? & _)].
  destruct Hr as (_ & _ & Hpost).
  destruct (construct_spec (fields msb_1) kwargs) as (fs & Hc & Hfst & Hassoc).
  { intros n Hn.
    destruct (fields_ready msb_1 msb_2 h n Hfields Hwf1 Hwf2 Hn)
      as (l1 & l2 & es1 & es2 & Hl1 & Hl2 & Hes1 & Hes2).
    destruct (Hpost n l1 l2 es1 es2 Hn Hl1 Hl2 Hes1 Hes2) as (l' & -> & _).
    by eexists. }
  exists (mkMSB fs), h'. split_and!.
  - unfold merge. destruct ff; try done;
      (rewrite decide_False by (by intros Hne; apply Hne));
      rewrite (bind_Ok _ _ _ _ _ Hrun); unfold bind, lift; by rewrite Hc.
  - done.
  - intros l es Hl. by apply (lookup_weaken h).
  - intros n l1 l2 es1 es2 Hl1 Hl2 Hes1 Hes2.
    assert (Hn : n ∈ fields msb_1).
    { apply assoc_Some_elem in Hl1. unfold fields.
      by apply (list_elem_of_fmap_2 fst) in Hl1. }
    destruct (Hpost n l1 l2 es1 es2 Hn Hl1 Hl2 Hes1 Hes2)
      as (l' & Hm & Hnew & Hl').
    exists l'. cbn [msb_fields]. by rewrite Hassoc.
Qed.

(** X8. An MSB does not merge with itself unless the filter leaves it
    empty: with [allow_repeated_names] false, one entry that passes the
    filter is enough for the error of repeated names. *)
Theorem merge_with_itself msb ff h n l es e :
  well_formed msb h ->
  ff <> FilterNotCallable ->
  assoc n (msb_fields msb) = Some l ->
  h !! l = Some es ->
  e ∈ filtered ff es ->
  exists h',
    merge entry_name msb msb ff false h
    = (Raise (ValueError MsgRepeatedNames), h')
    /\ forall l0 es0, h !! l0 = Some es0 -> h' !! l0 = Some es0.
Proof.
  intros Hwf Hff Hl Hes He.
  destruct (merge_loop_spec entry_name msb msb ff false (fields msb) ∅ h)
    as (r & h' & Hrun & Hsub & Hr).
  { intros n0 Hn0. by apply fields_ready. }
  assert (Hn : n ∈ fields msb).
  { pose proof (assoc_Some_elem _ _ _ Hl) as Hin. unfold fields.
    by apply (list_elem_of_fmap_2 fst) in Hin. }
  destruct r as [kwargs|x].
  { destruct Hr as ([?|Hnone] & _); [done|]. exfalso.
    specialize (Hnone n Hn).
    rewrite (repeated_names_of_nil entry_name _ _ ff h n l l es es) in Hnone by done.
    by apply (Hnone e e). }
  destruct Hr as (-> & _). exists h'. split.
  - unfold merge. destruct ff; try done;
      (rewrite decide_False by (by intros Hne; apply Hne));
      by rewrite (bind_Raise _ _ _ _ _ Hrun).
  - intros l0 es0 Hl0. by apply (lookup_weaken h).
Qed.
End merge_more.
End MergeMore.

Lemma merge_different_fields_witness :
  Merge.merge fst
    (Merge.mkMSB [("parts", 1%positive); ("regions", 2%positive)])
    (Merge.mkMSB [("regions", 2%positive); ("parts", 1%positive)])
    Merge.FilterNone true MergeExamples.lists
  = (Raise (TypeError MsgDifferentFieldNames), MergeExamples.lists).
Proof.
  apply MergeMore.merge_different_fields; discriminate.
Defined.

Lemma merge_allowing_repeated_names_witness :
  exists merged h',
    Merge.merge fst MergeExamples.msb_a MergeExamples.msb_c Merge.FilterNone true
                MergeExamples.lists = (Ok merged, h')
    /\ Merge.fields merged = Merge.fields MergeExamples.msb_a
    /\ (forall l es, MergeExamples.lists !! l = Some es -> h' !! l = Some es)
    /\ forall n l1 l2 es1 es2,
         Merge.assoc n (Merge.msb_fields MergeExamples.msb_a) = Some l1 ->
         Merge.assoc n (Merge.msb_fields MergeExamples.msb_c) = Some l2 ->
         MergeExamples.lists !! l1 = Some es1 ->
         MergeExamples.lists !! l2 = Some es2 ->
         exists l',
           Merge.assoc n (Merge.msb_fields merged) = Some l'
           /\ MergeExamples.lists !! l' = None
           /\ h' !! l' = Some (Merge.filtered Merge.FilterNone es1
                               ++ Merge.filtered Merge.FilterNone es2).
Proof.
  apply (MergeMore.merge_allowing_repeated_names fst MergeExamples.msb_a
           MergeExamples.msb_c Merge.FilterNone MergeExamples.lists).
  - reflexivity.
  - apply MergeExampleFacts.lists_well_formed. auto.
  - apply MergeExampleFacts.lists_well_formed. auto.
  - discriminate.
Defined.

Lemma merge_with_itself_witness :
  exists h',
    Merge.merge fst MergeExamples.msb_b MergeExamples.msb_b Merge.FilterNone false
                MergeExamples.lists
    = (Raise (ValueError MsgRepeatedNames), h')
    /\ forall l0 es0, MergeExamples.lists !! l0 = Some es0 -> h' !! l0 = Some es0.
Proof.
  apply (MergeMore.merge_with_itself fst MergeExamples.msb_b Merge.FilterNone
           MergeExamples.lists "collisions" 2%positive [("h0002", 2%nat)]
           ("h0002", 2%nat)).
  - apply MergeExampleFacts.lists_well_formed. auto.
  - discriminate.
  - reflexivity.
  - reflexivity.
  - cbn [Merge.filtered]. left.
Defined.

(** ** The batch transforms: rotation, and the namespace *)

Lemma for_each_none_selected {St A} (sel : A -> bool) (body : A -> M St unit)
    (ls : list A) (h : St) :
  existsb sel ls = false ->
  for_each ls (fun l => if sel l then body l else ret tt) h = (Ok tt, h).
Proof.
  induction ls as [|l ls IH]; [done|]. cbn [existsb for_each].
  intros [Hl Hls]%orb_false_iff. rewrite Hl.
  rewrite (bind_Ok _ _ h tt h) by done. by apply IH.
Qed.

Lemma for_each_first_selected_raises {St A} (sel : A -> bool)
    (body : A -> M St unit) (ls : list A) (h : St) (x : exn) :
  (forall l, l ∈ ls -> body l h = (Raise x, h)) ->
  existsb sel ls = true ->
  for_each ls (fun l => if sel l then body l else ret tt) h = (Raise x, h).
Proof.
  induction ls as [|l ls IH]; [done|]. cbn [existsb for_each].
  intros Hbody Hex. destruct (sel l) eqn:Hl.
  - apply bind_Raise, Hbody. left.
  - rewrite (bind_Ok _ _ h tt h) by done.
    apply IH; [|done]. intros l' Hl'. apply Hbody. by right.
Qed.

Lemma for_each_selected_raises {St A} (sel : A -> bool)
    (body : A -> M St unit) (ls : list A) (h : St) :
  (forall l, exists x, body l h = (Raise x, h)) ->
  existsb sel ls = true ->
  exists x, for_each ls (fun l => if sel l then body l else ret tt) h = (Raise x, h).
Proof.
  induction ls as [|l ls IH]; [done|]. cbn [existsb for_each].
  intros Hbody Hex. destruct (sel l) eqn:Hl.
  - destruct (Hbody l) as [x Hx]. exists x. by apply bind_Raise.
  - destruct (IH Hbody Hex) as [x Hx]. exists x.
    by rewrite (bind_Ok _ _ h tt h).
Qed.

Module TransformMore.
Import Transform TransformFacts.
Section transform_more.
Context {F Vector3 Matrix3 : Type}.
Context {vectors : Vectors F Vector3} {rotations : Rotations F Vector3 Matrix3}.
Local Abbreviation entry := (@MSBEntry F Vector3).
Implicit Types (h : gmap loc entry) (e : entry) (l : loc) (msb : MSB).

Lemma resolve_all_entries msb h (ls : list loc) :
  resolve_all msb h (map SelEntry ls) = Ok ls.
Proof.
  induction ls as [|l ls IH]; [done|].
  cbn [map resolve_all resolve_entry bind_result]. by rewrite IH.
Qed.

(** A loop that replaces each selected entry [e] of a list without
    repetition by [g e], for a body that does so on the entries that
    satisfy [P]. *)
Lemma for_each_selected_update_on (P : entry -> Prop) (sel : loc -> bool)
      (g : entry -> entry) (body : loc -> M (gmap loc entry) unit)
      (ls : list loc) :
  (forall l h e, h !! l = Some e -> P e -> body l h = (Ok tt, <[l := g e]> h)) ->
  forall h,
    NoDup ls -> (forall l, l ∈ ls -> exists e, h !! l = Some e /\ P e) ->
    exists h',
      for_each ls (fun l => if sel l then body l else ret tt) h = (Ok tt, h')
      /\ forall l, h' !! l = if bool_decide (l ∈ ls) && sel l
                             then g <$> (h !! l) else h !! l.
Proof.
  intros Hbody. induction ls as [|l0 ls IH]; intros h Hnodup Hin.
  { exists h. split; [done|]. intros l. by rewrite bool_decide_eq_false_2
      by (by intros ?%elem_of_nil). }
  apply list.NoDup_cons in Hnodup as [Hl0 Hnodup].
  destruct (Hin l0) as (e0 & He0 & HP0); [left|].
  assert (Hcons : forall l, l <> l0 ->
            bool_decide (l ∈ l0 :: ls) = bool_decide (l ∈ ls)).
  { intros l Hne. apply bool_decide_ext. rewrite elem_of_cons. intuition congruence. }
  cbn [for_each]. destruct (sel l0) eqn:Hsel.
  - destruct (IH (<[l0 := g e0]> h) Hnodup) as (h' & Hrun & Hh').
    { intros l Hl. rewrite lookup_insert_ne by (intros ->; done).
      apply Hin. by right. }
    exists h'. split.
    { by rewrite (bind_Ok _ _ _ _ _ (Hbody l0 h e0 He0 HP0)). }
    intros l. rewrite Hh'. destruct (decide (l = l0)) as [->|Hne].
    + rewrite (bool_decide_eq_false_2 (l0 ∈ ls)) by done.
      rewrite bool_decide_eq_true_2 by left. cbn [andb].
      by rewrite Hsel, lookup_insert_eq, He0.
    + rewrite lookup_insert_ne by done. by rewrite Hcons.
  - destruct (IH h Hnodup) as (h' & Hrun & Hh').
    { intros l Hl. apply Hin. by right. }
    exists h'. split.
    { rewrite (bind_Ok _ _ h tt h); [exact Hrun|done]. }
    intros l. rewrite Hh'. destruct (decide (l = l0)) as [->|Hne].
    + rewrite (bool_decide_eq_false_2 (l0 ∈ ls)) by done.
      by rewrite Hsel, !andb_false_r.
    + by rewrite Hcons.
Qed.

Lemma rotate_part_or_region_bound (G : globals) l (rotation : rotation_arg)
      (m : Matrix3) (pivot_point : option Vector3) (radians : bool) h e :
  names_bound G ->
  h !! l = Some e -> class e <> OtherEntry ->
  resolve_rotation rotation radians = Ok m ->
  rotate_part_or_region G l rotation pivot_point radians h
  = (Ok tt, <[l := rotated e m (default vzero pivot_point)]> h).
Proof.
  intros [Hpart Hregion] He Hclass Hrot. unfold rotate_part_or_region.
  rewrite (bind_Ok _ _ _ _ _ (read_Some _ _ _ He)).
  rewrite Hpart, Hregion, Hrot. unfold bind at 1 2 3, lift.
  unfold isinstance. rewrite bool_decide_eq_true_2.
  - cbn [negb]. by apply write_Some with e.
  - destruct (class e); [left|right; left|done].
Qed.

(** X9. [rotate_part_or_region], in a namespace where the two class names
    stand for the two classes: an entry that is neither a Part nor a
    Region gets the [TypeError], whatever the rotation, and nothing
    changes; a Part or a Region is replaced by its rotation about the
    pivot (the world origin when none is given), and only it. *)
Theorem rotate_part_or_region_spec (G : globals) l (rotation : rotation_arg)
      (pivot_point : option Vector3) (radians : bool) h e :
  names_bound G ->
  h !! l = Some e ->
  (class e = OtherEntry ->
   rotate_part_or_region G l rotation pivot_point radians h
   = (Raise (TypeError MsgCannotRotate), h))
  /\ (class e <> OtherEntry ->
      forall m, resolve_rotation rotation radians = Ok m ->
        rotate_part_or_region G l rotation pivot_point radians h
        = (Ok tt, <[l := rotated e m (default vzero pivot_point)]> h)
        /\ class (rotated e m (default vzero pivot_point)) = class e
        /\ name (rotated e m (default vzero pivot_point)) = name e
        /\ reflect_plane_height (rotated e m (default vzero pivot_point))
           = reflect_plane_height e).
Proof.
  intros Hbound He. split.
  - intros Hclass. destruct Hbound as [Hpart Hregion].
    unfold rotate_part_or_region.
    rewrite (bind_Ok _ _ _ _ _ (read_Some _ _ _ He)).
    rewrite Hpart, Hregion. unfold bind at 1 2, lift.
    unfold isinstance. rewrite Hclass. reflexivity.
  - intros Hclass m Hrot. split; [|done].
    by apply rotate_part_or_region_bound.
Qed.

(** X10. [rotate_entry] has no class test. A Part or a Region is
    rotated about the pivot, the world origin by default, with the
    rotation read in radians when [radians] is true: what
    [rotate_part_or_region] does where the class names are bound. On any
    other entry, which has no [rotate] to read, [rotate_entry] raises
    [AttributeError] and the store stays as it is. *)
Theorem rotate_entry_spec (G : globals) l (rotation : rotation_arg)
      (m : Matrix3) (pivot_point : option Vector3) (radians : bool) h e :
  h !! l = Some e ->
  resolve_rotation rotation radians = Ok m ->
  (class e <> OtherEntry ->
   rotate_entry l rotation pivot_point radians h
   = (Ok tt, <[l := rotated e m (default vzero pivot_point)]> h)
   /\ rotate (rotated e m (default vzero pivot_point))
      = to_euler_angles (matmul m (from_euler_angles (rotate e) false))
   /\ translate (rotated e m (default vzero pivot_point))
      = vadd (matvec m (vsub (translate e) (default vzero pivot_point)))
             (default vzero pivot_point)
   /\ (names_bound G ->
       rotate_part_or_region G l rotation pivot_point radians h
       = rotate_entry l rotation pivot_point radians h))
  /\ (class e = OtherEntry ->
      rotate_entry l rotation pivot_point radians h = (Raise AttributeError, h)).
Proof.
  intros He Hrot.
  assert (Hread : rotate_entry l rotation pivot_point radians h
                  = if bool_decide (class e = OtherEntry)
                    then (Raise AttributeError, h)
                    else write l (rotated e m (default vzero pivot_point)) h).
  { unfold rotate_entry. rewrite Hrot. unfold bind at 1, lift.
    rewrite (bind_Ok _ _ _ _ _ (read_Some _ _ _ He)).
    by destruct (bool_decide (class e = OtherEntry)). }
  split.
  - intros Hclass.
    assert (Hrun : rotate_entry l rotation pivot_point radians h
                   = (Ok tt, <[l := rotated e m (default vzero pivot_point)]> h)).
    { rewrite Hread, bool_decide_eq_false_2 by done. by apply write_Some with e. }
    split_and!; try done.
    intros Hbound. rewrite Hrun. by apply rotate_part_or_region_bound.
  - intros Hclass. by rewrite Hread, bool_decide_eq_true_2.
Qed.

Lemma both_loops msb (selected : list loc) (P : entry -> Prop)
      (on_part on_region : entry -> entry)
      (part_body region_body : loc -> M (gmap loc entry) unit) h :
  (forall l h e, h !! l = Some e -> P e ->
                 part_body l h = (Ok tt, <[l := on_part e]> h)) ->
  (forall l h e, h !! l = Some e -> P e ->
                 region_body l h = (Ok tt, <[l := on_region e]> h)) ->
  NoDup (get_parts msb ++ get_regions msb) ->
  (forall l, l ∈ get_parts msb ++ get_regions msb ->
             exists e, h !! l = Some e /\ P e) ->
  exists h',
    (for_each (get_parts msb) (fun part =>
       if is_selected selected part then part_body part else ret tt) ;;;
     for_each (get_regions msb) (fun region =>
       if is_selected selected region then region_body region else ret tt)) h
    = (Ok tt, h')
    /\ forall l, h' !! l = both_loops_lookup msb selected on_part on_region h l.
Proof.
  intros Hpart Hregion Hnodup Hin.
  apply list.NoDup_app in Hnodup as (Hnd_parts & Hdisj & Hnd_regions).
  destruct (for_each_selected_update_on P (is_selected selected) on_part part_body
              (get_parts msb) Hpart h Hnd_parts) as (h1 & Hrun1 & Hh1).
  { intros l Hl. apply Hin, elem_of_app. by left. }
  destruct (for_each_selected_update_on P (is_selected selected) on_region region_body
              (get_regions msb) Hregion h1 Hnd_regions) as (h2 & Hrun2 & Hh2).
  { intros l Hl. rewrite Hh1.
    rewrite bool_decide_eq_false_2 by (intros Hp; by apply (Hdisj l Hp)).
    apply Hin, elem_of_app. by right. }
  exists h2. split.
  - by rewrite (bind_Ok _ _ _ _ _ Hrun1).
  - intros l. rewrite Hh2, Hh1. unfold both_loops_lookup.
    destruct (decide (l ∈ get_parts msb)) as [Hp|Hp].
    + rewrite (bool_decide_eq_true_2 _ Hp).
      rewrite (bool_decide_eq_false_2 (l ∈ get_regions msb)) by by apply Hdisj.
      done.
    + by rewrite (bool_decide_eq_false_2 _ Hp).
Qed.

Lemma rotate_all_in_world_lookup (G : globals) msb (rotation : rotation_arg)
      (m : Matrix3) (pivot_point : option Vector3) (radians : bool)
      (selected_entries : list selector) (selected : list loc) h :
  names_bound G ->
  resolve_all msb h selected_entries = Ok selected ->
  resolve_rotation rotation false = Ok m ->
  NoDup (get_parts msb ++ get_regions msb) ->
  (forall l, l ∈ get_parts msb ++ get_regions msb ->
             exists e, h !! l = Some e /\ class e <> OtherEntry) ->
  exists h',
    rotate_all_in_world G msb rotation pivot_point radians selected_entries h
    = (Ok tt, h')
    /\ forall l, h' !! l
         = both_loops_lookup msb selected
             (fun e => rotated e m (default vzero pivot_point))
             (fun e => rotated e m (default vzero pivot_point)) h l.
Proof.
  intros Hbound Hres Hrot Hnodup Hin.
  unfold rotate_all_in_world.
  rewrite (bind_Ok _ _ h selected h) by (unfold resolve_entries_list; by rewrite Hres).
  rewrite Hrot. unfold bind at 1, lift.
  apply (both_loops msb selected (fun e => class e <> OtherEntry)); try done.
  - intros l h0 e He Hclass.
    by rewrite (rotate_part_or_region_bound G l (RotMatrix m) m _ radians h0 e).
  - intros l h0 e He Hclass.
    by rewrite (rotate_part_or_region_bound G l (RotMatrix m) m _ radians h0 e).
Qed.

Lemma translate_all_lookup msb (translate_by : Vector3)
      (selected_entries : list selector) (selected : list loc) h :
  resolve_all msb h selected_entries = Ok selected ->
  NoDup (get_parts msb ++ get_regions msb) ->
  (forall l, l ∈ get_parts msb ++ get_regions msb -> is_Some (h !! l)) ->
  exists h',
    translate_all msb translate_by selected_entries h = (Ok tt, h')
    /\ forall l, h' !! l
         = both_loops_lookup msb selected (translated_part translate_by)
             (translated_region translate_by) h l.
Proof.
  intros Hres Hnodup Hin. unfold translate_all.
  rewrite (bind_Ok _ _ h selected h) by (unfold resolve_entries_list; by rewrite Hres).
  apply (both_loops msb selected (fun _ => True)); try done.
  - intros l h0 e He _. by apply translate_part_Some.
  - intros l h0 e He _. by apply translate_region_Some.
  - intros l Hl. destruct (Hin l Hl) as [e He]. eauto.
Qed.

(** X11. [rotate_all_in_world], in a namespace where the two class names
    stand for the two classes, on a map whose Parts and Regions are
    distinct objects of those classes, with a selection and a rotation
    that resolve: every selected Part and Region is rotated about the
    pivot by the rotation read in degrees, and every other entry of the
    store is as it was. *)
Theorem rotate_all_in_world_spec (G : globals) msb (rotation : rotation_arg)
      (m : Matrix3) (pivot_point : option Vector3) (radians : bool)
      (selected_entries : list selector) (selected : list loc) h :
  names_bound G ->
  resolve_all msb h selected_entries = Ok selected ->
  resolve_rotation rotation false = Ok m ->
  NoDup (get_parts msb ++ get_regions msb) ->
  (forall l, l ∈ get_parts msb ++ get_regions msb ->
             exists e, h !! l = Some e /\ class e <> OtherEntry) ->
  exists h',
    rotate_all_in_world G msb rotation pivot_point radians selected_entries h
    = (Ok tt, h')
    /\ (forall l, h !! l = None -> h' !! l = None)
    /\ forall l e,
         h !! l = Some e ->
         h' !! l
         = Some (if bool_decide (l ∈ get_parts msb ++ get_regions msb)
                    && is_selected selected l
                 then rotated e m (default vzero pivot_point)
                 else e).
Proof.
  intros Hbound Hres Hrot Hnodup Hin.
  destruct (rotate_all_in_world_lookup G msb rotation m pivot_point radians
              selected_entries selected h) as (h' & Hrun & Hh'); try done.
  exists h'. split; [done|]. split.
  - intros l Hl. rewrite Hh'. unfold both_loops_lookup. rewrite Hl.
    by repeat destruct (_ && _).
  - intros l e He. rewrite Hh'. unfold both_loops_lookup. rewrite He.
    destruct (is_selected selected l); rewrite ?andb_true_r, ?andb_false_r; [|done].
    destruct (decide (l ∈ get_parts msb)) as [Hp|Hp].
    + rewrite (bool_decide_eq_true_2 _ Hp).
      by rewrite bool_decide_eq_true_2 by (apply elem_of_app; by left).
    + rewrite (bool_decide_eq_false_2 _ Hp).
      destruct (decide (l ∈ get_regions msb)) as [Hr|Hr].
      * rewrite (bool_decide_eq_true_2 _ Hr).
        by rewrite bool_decide_eq_true_2 by (apply elem_of_app; by right).
      * rewrite (bool_decide_eq_false_2 _ Hr).
        by rewrite bool_decide_eq_false_2
          by (intros [?|?]%elem_of_app; done).
Qed.

(** X12. [move_map], in a namespace where the two class names stand for the
    two classes, on a map whose Parts and Regions are distinct objects of
    those classes, with a selection that resolves: with
    [Rw = from_euler_angles(end_rotate) @ from_euler_angles(start_rotate).T]
    and [T = end_translate - Rw @ start_translate] (absent arguments being
    zero vectors), every selected Part and Region is first rotated by
    [Rw] about the world origin and then translated by [T], a Part's
    [reflect_plane_height] moving with the [y] of [T]; every other entry
    is as it was. *)
Theorem move_map_spec (G : globals) msb
      (start_translate end_translate start_rotate end_rotate : option Vector3)
      (selected_entries : list selector) (selected : list loc) h :
  names_bound G ->
  resolve_all msb h selected_entries = Ok selected ->
  NoDup (get_parts msb ++ get_regions msb) ->
  (forall l, l ∈ get_parts msb ++ get_regions msb ->
             exists e, h !! l = Some e /\ class e <> OtherEntry) ->
  let Rw := matmul (from_euler_angles (default vzero end_rotate) false)
                   (transpose (from_euler_angles (default vzero start_rotate) false)) in
  let T := vsub (default vzero end_translate)
                (matvec Rw (default vzero start_translate)) in
  exists h',
    move_map G msb start_translate end_translate start_rotate end_rotate
             selected_entries h = (Ok tt, h')
    /\ (forall l, h !! l = None -> h' !! l = None)
    /\ forall l e,
         h !! l = Some e ->
         h' !! l
         = Some (if is_selected selected l
                 then if bool_decide (l ∈ get_parts msb)
                      then translated_part T (rotated e Rw vzero)
                      else if bool_decide (l ∈ get_regions msb)
                           then translated_region T (rotated e Rw vzero)
                           else e
                 else e).
Proof.
  intros Hbound Hres Hnodup Hin Rw T.
  destruct (rotate_all_in_world_lookup G msb (RotMatrix Rw) Rw None false
              (map SelEntry selected) selected h) as (h1 & Hrun1 & Hh1);
    try done; [apply resolve_all_entries|].
  assert (Hh1_in : forall l, l ∈ get_parts msb ++ get_regions msb ->
                             is_Some (h1 !! l)).
  { intros l Hl. destruct (Hin l Hl) as (e & He & _).
    rewrite Hh1. unfold both_loops_lookup. rewrite He.
    by repeat destruct (_ && _). }
  destruct (translate_all_lookup msb T (map SelEntry selected) selected h1)
    as (h2 & Hrun2 & Hh2); try done; [apply resolve_all_entries|].
  exists h2. split_and!.
  - unfold move_map.
    rewrite (bind_Ok _ _ h selected h) by (unfold resolve_entries_list; by rewrite Hres).
    fold Rw T. by rewrite (bind_Ok _ _ _ _ _ Hrun1).
  - intros l Hl. rewrite Hh2. unfold both_loops_lookup. rewrite !Hh1.
    unfold both_loops_lookup. rewrite Hl. by repeat destruct (_ && _).
  - intros l e He. rewrite Hh2. unfold both_loops_lookup. rewrite !Hh1.
    unfold both_loops_lookup. rewrite He. cbn [default].
    destruct (is_selected selected l); rewrite ?andb_true_r, ?andb_false_r; [|done].
    apply list.NoDup_app in Hnodup as (_ & Hdisj & _).
    destruct (decide (l ∈ get_parts msb)) as [Hp|Hp].
    + by rewrite (bool_decide_eq_true_2 _ Hp).
    + rewrite (bool_decide_eq_false_2 _ Hp).
      by destruct (bool_decide (l ∈ get_regions msb)).
Qed.

Lemma rotate_part_or_region_module_raises l (rotation : rotation_arg)
      (pivot_point : option Vector3) (radians : bool) h :
  exists x, rotate_part_or_region module_globals l rotation pivot_point radians h
            = (Raise x, h).
Proof.
  unfold rotate_part_or_region, bind, read.
  destruct (h !! l); eexists; reflexivity.
Qed.

Lemma translate_all_none_selected msb (translate_by : Vector3) (selected : list loc) h :
  existsb (is_selected selected) (get_parts msb ++ get_regions msb) = false ->
  translate_all msb translate_by (map SelEntry selected) h = (Ok tt, h).
Proof.
  rewrite existsb_app. intros [Hp Hr]%orb_false_iff. unfold translate_all.
  rewrite (bind_Ok _ _ h selected h)
    by (unfold resolve_entries_list; by rewrite resolve_all_entries).
  rewrite (bind_Ok _ _ h tt h) by by apply for_each_none_selected.
  by apply for_each_none_selected.
Qed.

(** With the class names unbound, the loops of [rotate_all_in_world]
    raise at the first selected entry and change nothing. *)
Lemma rotate_all_in_world_unbound msb (rotation : rotation_arg) (m : Matrix3)
      (pivot_point : option Vector3) (radians : bool)
      (selected_entries : list selector) (selected : list loc) h :
  resolve_all msb h selected_entries = Ok selected ->
  resolve_rotation rotation false = Ok m ->
  if existsb (is_selected selected) (get_parts msb ++ get_regions msb)
  then exists x,
         rotate_all_in_world module_globals msb rotation pivot_point radians
                             selected_entries h = (Raise x, h)
         /\ ((forall l, l ∈ get_parts msb ++ get_regions msb -> is_Some (h !! l)) ->
             x = NameError "BaseMSBPart")
  else rotate_all_in_world module_globals msb rotation pivot_point radians
                           selected_entries h = (Ok tt, h).
Proof.
  intros Hres Hrot.
  set (body := fun l => rotate_part_or_region module_globals l (RotMatrix m)
                          (Some (default vzero pivot_point)) radians).
  assert (Heq : rotate_all_in_world module_globals msb rotation pivot_point radians
                  selected_entries h
                = (for_each (get_parts msb) (fun l =>
                     if is_selected selected l then body l else ret tt) ;;;
                   for_each (get_regions msb) (fun l =>
                     if is_selected selected l then body l else ret tt)) h).
  { unfold rotate_all_in_world.
    rewrite (bind_Ok _ _ h selected h) by (unfold resolve_entries_list; by rewrite Hres).
    by rewrite Hrot. }
  rewrite Heq. clear Heq.
  assert (Hname : forall (ls : list loc) x,
            (forall l, l ∈ ls -> is_Some (h !! l)) ->
            existsb (is_selected selected) ls = true ->
            for_each ls (fun l => if is_selected selected l then body l else ret tt) h
            = (Raise x, h) ->
            x = NameError "BaseMSBPart").
  { intros ls x Hls Hex Hrun.
    rewrite (for_each_first_selected_raises (is_selected selected) _ ls h
               (NameError "BaseMSBPart")) in Hrun; [congruence| |done].
    intros l Hl. destruct (Hls l Hl) as [e He].
    by apply rotate_part_or_region_module_globals with e. }
  rewrite existsb_app.
  destruct (existsb (is_selected selected) (get_parts msb)) eqn:Hp; cbn [orb].
  - destruct (for_each_selected_raises (is_selected selected) body
                (get_parts msb) h) as [x Hx]; [|done|].
    { intros l. apply rotate_part_or_region_module_raises. }
    exists x. split; [by apply bind_Raise|].
    intros Hin. apply (Hname (get_parts msb)); try done.
    intros l Hl. apply Hin, elem_of_app. by left.
  - rewrite (bind_Ok _ _ h tt h) by by apply for_each_none_selected.
    destruct (existsb (is_selected selected) (get_regions msb)) eqn:Hr.
    + destruct (for_each_selected_raises (is_selected selected) body
                  (get_regions msb) h) as [x Hx]; [|done|].
      { intros l. apply rotate_part_or_region_module_raises. }
      exists x. split; [done|].
      intros Hin. apply (Hname (get_regions msb)); try done.
      intros l Hl. apply Hin, elem_of_app. by right.
    + by apply for_each_none_selected.
Qed.

(** X13. [rotate_all_in_world] as the module runs it, with the two class
    names unbound: it never changes an entry, whatever it is given; on a
    map whose Parts and Regions are in the store, with a selection and a
    rotation that resolve, it raises [NameError] as soon as one Part or
    Region is selected, and returns normally only when none is. *)
Theorem rotate_all_in_world_at_run_time msb (rotation : rotation_arg)
      (pivot_point : option Vector3) (radians : bool)
      (selected_entries : list selector) h :
  snd (rotate_all_in_world module_globals msb rotation pivot_point radians
                           selected_entries h) = h
  /\ forall (selected : list loc) (m : Matrix3),
       resolve_all msb h selected_entries = Ok selected ->
       resolve_rotation rotation false = Ok m ->
       (forall l, l ∈ get_parts msb ++ get_regions msb -> is_Some (h !! l)) ->
       fst (rotate_all_in_world module_globals msb rotation pivot_point radians
                                selected_entries h)
       = if existsb (is_selected selected) (get_parts msb ++ get_regions msb)
         then Raise (NameError "BaseMSBPart") else Ok tt.
Proof.
  split.
  - destruct (resolve_all msb h selected_entries) as [selected|x] eqn:Hres.
    2:{ unfold rotate_all_in_world, bind at 1, resolve_entries_list.
        by rewrite Hres. }
    destruct (resolve_rotation rotation false) as [m|x] eqn:Hrot.
    2:{ unfold rotate_all_in_world.
        rewrite (bind_Ok _ _ h selected h)
          by (unfold resolve_entries_list; by rewrite Hres).
        unfold bind at 1, lift. by rewrite Hrot. }
    pose proof (rotate_all_in_world_unbound msb rotation m pivot_point radians
                  selected_entries selected h Hres Hrot) as Hrun.
    destruct (existsb _ _); [destruct Hrun as (x & -> & _)|rewrite Hrun]; done.
  - intros selected m Hres Hrot Hin.
    pose proof (rotate_all_in_world_unbound msb rotation m pivot_point radians
                  selected_entries selected h Hres Hrot) as Hrun.
    destruct (existsb _ _); [|by rewrite Hrun].
    destruct Hrun as (x & -> & Hx). by rewrite (Hx Hin).
Qed.

(** X14. [move_map] as the module runs it, with the two class names unbound:
    it never moves anything, whatever it is given; on a map whose Parts
    and Regions are in the store, with a selection that resolves, it
    raises [NameError] as soon as one Part or Region is selected, and
    returns normally only when none is. *)
Theorem move_map_at_run_time msb
      (start_translate end_translate start_rotate end_rotate : option Vector3)
      (selected_entries : list selector) h :
  snd (move_map module_globals msb start_translate end_translate
                start_rotate end_rotate selected_entries h) = h
  /\ forall (selected : list loc),
       resolve_all msb h selected_entries = Ok selected ->
       (forall l, l ∈ get_parts msb ++ get_regions msb -> is_Some (h !! l)) ->
       fst (move_map module_globals msb start_translate end_translate
                     start_rotate end_rotate selected_entries h)
       = if existsb (is_selected selected) (get_parts msb ++ get_regions msb)
         then Raise (NameError "BaseMSBPart") else Ok tt.
Proof.
  set (Rw := matmul (from_euler_angles (default vzero end_rotate) false)
               (transpose (from_euler_angles (default vzero start_rotate) false))).
  set (T := vsub (default vzero end_translate)
              (matvec Rw (default vzero start_translate))).
  assert (Hrun : forall selected,
            resolve_all msb h selected_entries = Ok selected ->
            move_map module_globals msb start_translate end_translate
                     start_rotate end_rotate selected_entries h
            = (rotate_all_in_world module_globals msb (RotMatrix Rw) None false
                 (map SelEntry selected) ;;;
               translate_all msb T (map SelEntry selected)) h).
  { intros selected Hres. unfold move_map.
    by rewrite (bind_Ok _ _ h selected h)
      by (unfold resolve_entries_list; by rewrite Hres). }
  assert (Hrot : forall selected,
            if existsb (is_selected selected) (get_parts msb ++ get_regions msb)
            then exists x,
                   rotate_all_in_world module_globals msb (RotMatrix Rw) None false
                     (map SelEntry selected) h = (Raise x, h)
                   /\ ((forall l, l ∈ get_parts msb ++ get_regions msb ->
                                  is_Some (h !! l)) ->
                       x = NameError "BaseMSBPart")
            else rotate_all_in_world module_globals msb (RotMatrix Rw) None false
                   (map SelEntry selected) h = (Ok tt, h)).
  { intros selected.
    apply (rotate_all_in_world_unbound msb (RotMatrix Rw) Rw None false
             (map SelEntry selected) selected h); [apply resolve_all_entries|done]. }
  split.
  - destruct (resolve_all msb h selected_entries) as [selected|x] eqn:Hres.
    2:{ unfold move_map, bind at 1, resolve_entries_list. by rewrite Hres. }
    rewrite (Hrun selected eq_refl). specialize (Hrot selected).
    destruct (existsb _ _) eqn:Hsel.
    + destruct Hrot as (x & Hx & _). by rewrite (bind_Raise _ _ _ _ _ Hx).
    + rewrite (bind_Ok _ _ _ _ _ Hrot). by rewrite translate_all_none_selected.
  - intros selected Hres Hin. rewrite (Hrun selected Hres).
    specialize (Hrot selected).
    destruct (existsb _ _) eqn:Hsel.
    + destruct Hrot as (x & Hx & Hname). rewrite (bind_Raise _ _ _ _ _ Hx).
      by rewrite (Hname Hin).
    + rewrite (bind_Ok _ _ _ _ _ Hrot). by rewrite translate_all_none_selected.
Qed.

Lemma resolve_all_same_names msb h h' (selected_entries : list selector) :
  (forall l, name <$> (h' !! l) = name <$> (h !! l)) ->
  resolve_all msb h' selected_entries = resolve_all msb h selected_entries.
Proof.
  intros Hnames.
  assert (Hnamed : forall n l, named h' n l = named h n l).
  { intros n l. unfold named. specialize (Hnames l).
    destruct (h' !! l), (h !! l); cbn in Hnames; try done. by injection Hnames as ->. }
  induction selected_entries as [|s ss IH]; [done|].
  cbn [resolve_all]. rewrite IH. f_equal.
  destruct s as [e|n]; [done|]. cbn [resolve_entry].
  by rewrite (filter_ext _ _ (Hnamed n)).
Qed.

(** X15. Two calls of [translate_all] with the same selection, on a map
    whose Parts and Regions are distinct objects of the store: the
    selection resolves to the same entries the second time, and every
    selected Part and Region has had the first vector and then the second
    added to its [translate] (a Part with a [reflect_plane_height], their
    [y] to it, in the same order); the other entries are as they were. *)
Theorem translate_all_twice msb (first second : Vector3)
      (selected_entries : list selector) (selected : list loc) h :
  resolve_all msb h selected_entries = Ok selected ->
  NoDup (get_parts msb ++ get_regions msb) ->
  (forall l, l ∈ get_parts msb ++ get_regions msb -> is_Some (h !! l)) ->
  exists h',
    (translate_all msb first selected_entries ;;;
     translate_all msb second selected_entries) h = (Ok tt, h')
    /\ forall l e,
         h !! l = Some e ->
         exists e',
           h' !! l = Some e'
           /\ if bool_decide (l ∈ get_parts msb ++ get_regions msb)
                 && is_selected selected l
              then translate e' = vadd (vadd (translate e) first) second
                   /\ reflect_plane_height e'
                      = if bool_decide (l ∈ get_parts msb)
                        then (fun p => fadd (fadd p (vy first)) (vy second))
                               <$> reflect_plane_height e
                        else reflect_plane_height e
              else e' = e.
Proof.
  intros Hres Hnodup Hin.
  destruct (translate_all_lookup msb first selected_entries selected h)
    as (h1 & Hrun1 & Hh1); try done.
  assert (Hnames : forall l, name <$> (h1 !! l) = name <$> (h !! l)).
  { intros l. rewrite Hh1. unfold both_loops_lookup.
    repeat destruct (_ && _); try done;
      (destruct (h !! l) as [e|]; [|done]); cbn; f_equal;
      unfold translated_part; cbn; by destruct (reflect_plane_height e). }
  assert (Hin1 : forall l, l ∈ get_parts msb ++ get_regions msb -> is_Some (h1 !! l)).
  { intros l Hl. destruct (Hin l Hl) as [e He].
    rewrite Hh1. unfold both_loops_lookup. rewrite He.
    by repeat destruct (_ && _). }
  destruct (translate_all_lookup msb second selected_entries selected h1)
    as (h2 & Hrun2 & Hh2); try done.
  { by rewrite (resolve_all_same_names msb h h1). }
  exists h2. split; [by rewrite (bind_Ok _ _ _ _ _ Hrun1)|].
  intros l e He. rewrite Hh2. unfold both_loops_lookup. rewrite !Hh1.
  unfold both_loops_lookup. rewrite He.
  apply list.NoDup_app in Hnodup as (_ & Hdisj & _).
  destruct (is_selected selected l); rewrite ?andb_true_r, ?andb_false_r.
  2:{ by exists e. }
  destruct (decide (l ∈ get_parts msb)) as [Hp|Hp].
  - rewrite (bool_decide_eq_true_2 _ Hp).
    rewrite bool_decide_eq_true_2 by (apply elem_of_app; by left).
    eexists. split; [done|]. unfold translated_part. cbn.
    destruct (reflect_plane_height e) as [p|] eqn:Hrph; cbn; rewrite ?Hrph; by cbn.
  - rewrite (bool_decide_eq_false_2 _ Hp).
    destruct (decide (l ∈ get_regions msb)) as [Hr|Hr].
    + rewrite (bool_decide_eq_true_2 _ Hr).
      rewrite bool_decide_eq_true_2 by (apply elem_of_app; by right).
      eexists. split; [done|]. by cbn.
    + rewrite (bool_decide_eq_false_2 _ Hr).
      rewrite bool_decide_eq_false_2 by (intros [?|?]%elem_of_app; done).
      by exists e.
Qed.
End transform_more.
End TransformMore.

Module TransformExampleFacts.
Import Transform TransformExamples RotationExamples.

Lemma type_checking_names_bound : names_bound type_checking_globals.
Proof. split; reflexivity. Defined.

Lemma entries_classes (l : loc) :
  l ∈ get_parts msb ++ get_regions msb ->
  exists e, entries !! l = Some e /\ class e <> OtherEntry.
Proof.
  intros Hl. cbn in Hl.
  repeat (apply elem_of_cons in Hl as [->|Hl]; [eexists; split; [reflexivity|discriminate]|]).
  by apply elem_of_nil in Hl.
Defined.

Lemma entries_in_store (l : loc) :
  l ∈ get_parts msb ++ get_regions msb -> is_Some (entries !! l).
Proof.
  intros Hl. destruct (entries_classes l Hl) as (e & He & _). by exists e.
Defined.

Lemma msb_NoDup : NoDup (get_parts msb ++ get_regions msb).
Proof. apply (bool_decide_unpack _). vm_compute. exact I. Defined.
End TransformExampleFacts.

Lemma rotate_part_or_region_spec_witness :
  Transform.rotate_part_or_region Transform.type_checking_globals 4%positive
    (Transform.RotMatrix tt) None false
    (<[4%positive := RotationExamples.event]> TransformExamples.entries)
  = (Raise (TypeError MsgCannotRotate),
     <[4%positive := RotationExamples.event]> TransformExamples.entries).
Proof.
  apply (TransformMore.rotate_part_or_region_spec Transform.type_checking_globals
           4%positive (Transform.RotMatrix tt) None false
           (<[4%positive := RotationExamples.event]> TransformExamples.entries)
           RotationExamples.event).
  - apply TransformExampleFacts.type_checking_names_bound.
  - reflexivity.
  - reflexivity.
Defined.

Lemma rotate_entry_spec_witness :
  Transform.rotate_entry 2%positive (Transform.RotEuler (0, 90, 0)) (Some (1, 1, 1)) true
    TransformExamples.entries
  = (Ok tt,
     <[2%positive := Transform.rotated TransformExamples.rock tt (1, 1, 1)]>
       TransformExamples.entries).
Proof.
  apply (TransformMore.rotate_entry_spec Transform.type_checking_globals
           2%positive (Transform.RotEuler (0, 90, 0)) tt (Some (1, 1, 1)) true
           TransformExamples.entries TransformExamples.rock);
    [reflexivity|reflexivity|discriminate].
Defined.

Lemma rotate_all_in_world_spec_witness :
  exists h',
    Transform.rotate_all_in_world Transform.type_checking_globals
      TransformExamples.msb (Transform.RotMatrix tt) None true
      [Transform.SelEntry 2%positive] TransformExamples.entries = (Ok tt, h')
    /\ h' !! 1%positive = Some TransformExamples.water
    /\ h' !! 2%positive
       = Some (Transform.rotated TransformExamples.rock tt (0, 0, 0)).
Proof.
  destruct (TransformMore.rotate_all_in_world_spec Transform.type_checking_globals
              TransformExamples.msb (Transform.RotMatrix tt) tt None true
              [Transform.SelEntry 2%positive] [2%positive] TransformExamples.entries)
    as (h' & Hrun & _ & Hh').
  - apply TransformExampleFacts.type_checking_names_bound.
  - reflexivity.
  - reflexivity.
  - apply TransformExampleFacts.msb_NoDup.
  - apply TransformExampleFacts.entries_classes.
  - exists h'. split; [exact Hrun|]. split.
    + exact (Hh' 1%positive TransformExamples.water eq_refl).
    + exact (Hh' 2%positive TransformExamples.rock eq_refl).
Defined.

Lemma move_map_spec_witness :
  exists h',
    Transform.move_map Transform.type_checking_globals TransformExamples.msb
      None (Some (0, 2, 0)) None None [] TransformExamples.entries = (Ok tt, h')
    /\ h' !! 1%positive
       = Some (Transform.mkEntry Transform.BaseMSBPart "h0000" (0, 2, 0) (0, 0, 0) (Some 7))
    /\ h' !! 3%positive
       = Some (Transform.mkEntry Transform.BaseMSBRegion "spawn" (1, 4, 3) (0, 0, 0) None).
Proof.
  destruct (TransformMore.move_map_spec Transform.type_checking_globals
              TransformExamples.msb None (Some (0, 2, 0)) None None []
              [] TransformExamples.entries)
    as (h' & Hrun & _ & Hh').
  - apply TransformExampleFacts.type_checking_names_bound.
  - reflexivity.
  - apply TransformExampleFacts.msb_NoDup.
  - apply TransformExampleFacts.entries_classes.
  - exists h'. split; [exact Hrun|]. split.
    + exact (Hh' 1%positive TransformExamples.water eq_refl).
    + exact (Hh' 3%positive TransformExamples.spawn eq_refl).
Defined.

Lemma rotate_all_in_world_at_run_time_witness :
  fst (Transform.rotate_all_in_world Transform.module_globals TransformExamples.msb
         (Transform.RotMatrix tt) None false [Transform.SelEntry 3%positive]
         TransformExamples.entries)
    = Raise (NameError "BaseMSBPart")
  /\ fst (Transform.rotate_all_in_world Transform.module_globals TransformExamples.msb
            (Transform.RotMatrix tt) None false [Transform.SelEntry 4%positive]
            TransformExamples.entries)
     = Ok tt.
Proof.
  split.
  - apply (proj2 (TransformMore.rotate_all_in_world_at_run_time TransformExamples.msb
                    (Transform.RotMatrix tt) None false [Transform.SelEntry 3%positive]
                    TransformExamples.entries) [3%positive] tt);
      [reflexivity|reflexivity|apply TransformExampleFacts.entries_in_store].
  - apply (proj2 (TransformMore.rotate_all_in_world_at_run_time TransformExamples.msb
                    (Transform.RotMatrix tt) None false [Transform.SelEntry 4%positive]
                    TransformExamples.entries) [4%positive] tt);
      [reflexivity|reflexivity|apply TransformExampleFacts.entries_in_store].
Defined.

Lemma move_map_at_run_time_witness :
  fst (Transform.move_map (rotations := RotationExamples.identity_rotations)
         Transform.module_globals TransformExamples.msb
         None (Some (0, 2, 0)) None None [Transform.SelName "spawn"]
         TransformExamples.entries)
    = Raise (NameError "BaseMSBPart")
  /\ snd (Transform.move_map (rotations := RotationExamples.identity_rotations)
            Transform.module_globals TransformExamples.msb
            None (Some (0, 2, 0)) None None [Transform.SelName "spawn"]
            TransformExamples.entries)
     = TransformExamples.entries.
Proof.
  split.
  - apply (proj2 (TransformMore.move_map_at_run_time TransformExamples.msb
                    None (Some (0, 2, 0)) None None [Transform.SelName "spawn"]
                    TransformExamples.entries) [3%positive]);
      [reflexivity|apply TransformExampleFacts.entries_in_store].
  - apply (proj1 (TransformMore.move_map_at_run_time TransformExamples.msb
                    None (Some (0, 2, 0)) None None [Transform.SelName "spawn"]
                    TransformExamples.entries)).
Defined.

Lemma translate_all_twice_witness :
  exists h',
    (Transform.translate_all TransformExamples.msb (0, 2, 0) [Transform.SelName "h0000"] ;;;
     Transform.translate_all TransformExamples.msb (1, 1, 1) [Transform.SelName "h0000"])
      TransformExamples.entries = (Ok tt, h')
    /\ exists e',
         h' !! 1%positive = Some e'
         /\ Transform.translate e' = (1, 3, 1)
         /\ Transform.reflect_plane_height e' = Some 8.
Proof.
  destruct (TransformMore.translate_all_twice TransformExamples.msb (0, 2, 0) (1, 1, 1)
              [Transform.SelName "h0000"] [1%positive] TransformExamples.entries)
    as (h' & Hrun & Hh').
  - reflexivity.
  - apply TransformExampleFacts.msb_NoDup.
  - apply TransformExampleFacts.entries_in_store.
  - exists h'. split; [exact Hrun|].
    destruct (Hh' 1%positive TransformExamples.water eq_refl) as (e' & He' & Ht & Hr).
    exists e'. split; [exact He'|]. split; [exact Ht|exact Hr].
Defined.

